(** * mkdocs-static-i18n: the [I18n] plugin  (src/mkdocs_static_i18n/plugin.py)

    A shallow embedding of the lifecycle hooks of the [I18n] plugin and of
    the pieces of the Python runtime they rely on ([str.replace],
    dictionaries, the plugin event registry), followed by the properties
    of the hooks.

    Layout:
    - [PyStr]      Python strings as lists of code points, [str.replace];
    - [Host]       the plugin instance, the configuration, the process-wide
                   state, results with exceptions;
    - [Hooks]      the plugin registry, [on_files], [on_template_context],
                   [on_post_template], [on_post_page], [on_post_build], and
                   the vocabulary of the statements;
    - [Samples]    a small site in English and French;
    - the properties: [str.replace], the template and page hooks, the
      substitution pairs, the registry, the patching, the post-build hook. *)

From Stdlib Require Import NArith Ascii String.
From stdpp Require Import base option list gmap strings fin_maps.

#[local] Set Default Proof Using "Type*".

(** ** Python strings *)

Module PyStr.

Section Replace.
Context {A : Type} `{EqDecision A}.
Implicit Types old new s t g : list A.

(** [s.startswith(pat)]. *)
Fixpoint starts_with (pat s : list A) : bool :=
  match pat, s with
  | [], _ => true
  | _ :: _, [] => false
  | p :: pat', c :: s' => bool_decide (p = c) && starts_with pat' s'
  end.

(** [old in s]: the pattern occurs as a contiguous substring. *)
Definition occurs (old s : list A) : Prop :=
  ∃ u v, s = u ++ old ++ v.

(** [old in s], computed. *)
Fixpoint contains (old s : list A) : bool :=
  starts_with old s
  || match s with
     | [] => false
     | _ :: s' => contains old s'
     end.

(** [g] is the text before the first occurrence of [old] in [g ++ old ++ v]. *)
Definition first_at (old g v : list A) : Prop :=
  ∀ g' v', g ++ old ++ v = g' ++ old ++ v' → length g ≤ length g'.

(** The scan of [str.replace] for a non-empty pattern: left to right,
    non-overlapping matches; [count] is the number of replacements still
    allowed ([None]: no limit, Python's [count=-1]); [skip] is the
    number of characters of the current match still to be consumed. *)
Fixpoint replace_go (old new : list A) (count : option nat) (skip : nat)
    (s : list A) : list A :=
  match s with
  | [] => []
  | c :: s' =>
      match skip with
      | S k => replace_go old new count k s'
      | O =>
          match count with
          | Some O => s
          | _ =>
              if starts_with old s
              then new ++ replace_go old new (pred <$> count) (length old - 1) s'
              else c :: replace_go old new count 0 s'
          end
      end
  end.

(** The empty pattern matches before every character and at the end. *)
Fixpoint replace_empty (new : list A) (count : option nat) (s : list A) : list A :=
  match count with
  | Some O => s
  | _ =>
      new ++ match s with
             | [] => []
             | c :: s' => c :: replace_empty new (pred <$> count) s'
             end
  end.

(** [s.replace(old, new, count)]. *)
Definition str_replace (old new : list A) (count : option nat) (s : list A) : list A :=
  match old with
  | [] => replace_empty new count s
  | _ :: _ => replace_go old new count 0 s
  end.

(** [s.replace(old, new)]. *)
Definition replace_all (old new s : list A) : list A :=
  str_replace old new None s.

(** [s.replace(old, new, 1)]. *)
Definition replace_first (old new s : list A) : list A :=
  str_replace old new (Some 1) s.

(** One of the two lists is a prefix of the other. *)
Definition comparable (a b : list A) : bool :=
  starts_with a b || starts_with b a.

(** All [drop j l] for [j < length l]. *)
Fixpoint tails (l : list A) : list (list A) :=
  match l with
  | [] => []
  | _ :: l' => l :: tails l'
  end.

(** A decidable sufficient condition under which no occurrence of [old]
    can touch an inserted copy of [new]:
    - [old] and [new] are not prefixes of one another;
    - no proper non-empty suffix of [old] is prefix-comparable with [new]
      (an occurrence cannot start before a copy of [new] and run into it);
    - [old] is prefix-comparable with no non-empty suffix of [new]
      (an occurrence cannot start inside a copy of [new]). *)
Definition seam_free (old new : list A) : bool :=
  negb (comparable old new)
  && forallb (λ b, negb (comparable b new)) (tails (tail old))
  && forallb (λ t, negb (comparable old t)) (tails new).

End Replace.

End PyStr.

(** Python [str] values: sequences of Unicode code points. *)
Definition char : Type := N.
Definition str : Type := list char.

(** An ASCII literal as a [str]. *)
Definition lit (s : string) : str :=
  (λ a, N_of_ascii a) <$> list_ascii_of_string s.

(** The double-quote character. *)
Definition dq : str := [34%N].

(** [s.endswith(suffix)]. *)
Definition ends_with (suffix s : str) : bool :=
  PyStr.starts_with (reverse suffix) (reverse s).

(** ** The host: configuration, plugin registry, process state *)

Module Host.

(** Values stored in a template context; objects owned by the host
    (file collections, alternates maps, language entries) are references. *)
Inductive pyval :=
  | PyNone
  | PyStr (s : str)
  | PyStrs (l : list str)
  | PyRef (o : positive).

(** An entry of [self.config.languages]; [locale] and [link] are the
    attributes the hooks read. *)
Record Language := {
  locale : str;
  link : str;
}.

(** The options of the plugin read by the hooks. *)
Record I18nConfig := {
  docs_structure : str;
  reconfigure_material : bool;
  languages : list Language;
}.

(** A plugin instance as the registry sees it: its identity, its class and
    the [on_*] methods of the class with their [event_priority]. *)
Record plugin_obj := {
  obj_id : positive;
  obj_class : str;
  obj_handles : gmap str Z;
}.

(** A registered event handler; [hook_self] is its [__self__], absent for
    plain functions and wrappers. *)
Record hook := {
  hook_self : option plugin_obj;
  hook_priority : Z;
}.

(** [config.plugins]: the plugins by name and the handlers by event. *)
Record PluginCollection := {
  by_name : gmap str plugin_obj;
  events : gmap str (list hook);
}.

Record MkDocsConfig := {
  config_file_path : str;
  site_dir : str;
  theme_name : option str;
  plugins : PluginCollection;
}.

(** The [I18n] instance ([self]).  [building], [current_language],
    [build_languages], [default_language] and [current_language_config] are
    attributes inherited from [ExtendedPlugin]. *)
Record I18n := {
  self_obj : plugin_obj;
  self_config : I18nConfig;
  building : bool;
  current_language : option str;
  default_language : str;
  build_languages : list str;
  current_language_config : pyval;
  i18n_alternates : pyval;
}.

(** The value of the module attribute [mkdocs.utils.clean_directory]: the
    host's function or the [lambda x: x] of line 245. *)
Inductive cleaner := HostCleaner | NoOpCleaner.

(** A file of the output tree. *)
Record file := {
  file_path : str;
  file_bytes : list Byte.byte;
}.

(** Records of the plugin's logger. *)
Inductive log_record :=
  | InfoBuilding (locale dir : str)
  | InfoModified (path : str)
  | ErrorNotModified (theme : option str).

(** The mutable state of the process that the hooks read and write. *)
Record State := {
  self : I18n;
  clean_directory : cleaner;
  duplicate_msgs : gset str;
  with_pdf_output_path : str;
  fs : list file;
  log : list log_record;
}.

(** Instrumentation: control reaching the rebuild loop (line 247) and each
    call of [build] (line 270) with the locale and the configuration. *)
Inductive event :=
  | EvLoop
  | EvBuild (locale : str) (internal_config : MkDocsConfig).

Record World := {
  st : State;
  trace : list event;
}.

Inductive exn :=
  | StopIteration
  | KeyError (key : str)
  | Unimplemented
  | ReadError (path : str)
  | HostError (code : N).

(** The outcome of a call: a value, an exception, or no more fuel; the
    state reached is kept in the first two cases. *)
Inductive result (S A : Type) :=
  | Ok (a : A) (s : S)
  | Raise (e : exn) (s : S)
  | OutOfFuel.
Arguments Ok {S A} a s.
Arguments Raise {S A} e s.
Arguments OutOfFuel {S A}.

Definition and_then {S A B} (r : result S A) (k : A → S → result S B) : result S B :=
  match r with
  | Ok a s => k a s
  | Raise e s => Raise e s
  | OutOfFuel => OutOfFuel
  end.

(** The code this repository calls but does not define in plugin.py: the
    host's build pipeline up to its [post_build] event, configuration
    loading, the handlers of other plugins, the text codecs of [pathlib],
    and the helpers of [suffix] and [ExtendedPlugin]. *)
Class Runtime := {
  host_stage : MkDocsConfig → State → exn + State;
  foreign_post_build : hook → MkDocsConfig → State → exn + State;
  load_config : str → State → exn + MkDocsConfig;
  with_pdf_on_post_build : MkDocsConfig → State → exn + State;
  with_pdf_on_post_page : str → pyval → MkDocsConfig → State → exn + State;
  as_posix : str → str;
  decode_utf8_sig : list Byte.byte → option str;
  encode_utf8 : str → list Byte.byte;
  suffix_on_files : I18n → pyval → MkDocsConfig → exn + pyval;
  reconfigure_alternates : I18n → pyval → exn + (I18n * pyval);
}.

(** *** Record updates *)

Definition set_building (b : bool) (i : I18n) : I18n :=
  {| self_obj := self_obj i; self_config := self_config i; building := b;
     current_language := current_language i;
     default_language := default_language i;
     build_languages := build_languages i;
     current_language_config := current_language_config i;
     i18n_alternates := i18n_alternates i |}.

Definition set_current_language (l : option str) (i : I18n) : I18n :=
  {| self_obj := self_obj i; self_config := self_config i;
     building := building i; current_language := l;
     default_language := default_language i;
     build_languages := build_languages i;
     current_language_config := current_language_config i;
     i18n_alternates := i18n_alternates i |}.

Definition set_i18n_alternates (a : pyval) (i : I18n) : I18n :=
  {| self_obj := self_obj i; self_config := self_config i;
     building := building i; current_language := current_language i;
     default_language := default_language i;
     build_languages := build_languages i;
     current_language_config := current_language_config i;
     i18n_alternates := a |}.

Definition with_self (f : I18n → I18n) (s : State) : State :=
  {| self := f (self s); clean_directory := clean_directory s;
     duplicate_msgs := duplicate_msgs s;
     with_pdf_output_path := with_pdf_output_path s;
     fs := fs s; log := log s |}.

Definition set_clean_directory (c : cleaner) (s : State) : State :=
  {| self := self s; clean_directory := c;
     duplicate_msgs := duplicate_msgs s;
     with_pdf_output_path := with_pdf_output_path s;
     fs := fs s; log := log s |}.

Definition set_duplicate_msgs (m : gset str) (s : State) : State :=
  {| self := self s; clean_directory := clean_directory s;
     duplicate_msgs := m;
     with_pdf_output_path := with_pdf_output_path s;
     fs := fs s; log := log s |}.

Definition set_with_pdf_output_path (p : str) (s : State) : State :=
  {| self := self s; clean_directory := clean_directory s;
     duplicate_msgs := duplicate_msgs s;
     with_pdf_output_path := p;
     fs := fs s; log := log s |}.

Definition set_fs (f : list file) (s : State) : State :=
  {| self := self s; clean_directory := clean_directory s;
     duplicate_msgs := duplicate_msgs s;
     with_pdf_output_path := with_pdf_output_path s;
     fs := f; log := log s |}.

Definition log_add (r : log_record) (s : State) : State :=
  {| self := self s; clean_directory := clean_directory s;
     duplicate_msgs := duplicate_msgs s;
     with_pdf_output_path := with_pdf_output_path s;
     fs := fs s; log := log s ++ [r] |}.

Definition on_state (f : State → State) (w : World) : World :=
  {| st := f (st w); trace := trace w |}.

Definition record_event (e : event) (w : World) : World :=
  {| st := st w; trace := trace w ++ [e] |}.

(** A call into foreign code: it works on the state and cannot touch the
    instrumentation. *)
Definition call (f : State → exn + State) (w : World) : result World unit :=
  match f (st w) with
  | inl e => Raise e w
  | inr s => Ok tt {| st := s; trace := trace w |}
  end.

End Host.

(** ** The plugin's hooks *)

Module Hooks.
Import PyStr Host.

(** The class of the plugin and the [on_*] methods it defines, with the
    priority given by [plugins.event_priority] (0 for [on_env]). *)
Definition I18n_class : str := lit "mkdocs_static_i18n.plugin.I18n".

Definition I18n_handles : gmap str Z :=
  list_to_map [
    (lit "config", -100); (lit "files", -100); (lit "nav", -100);
    (lit "env", 0); (lit "template_context", -100);
    (lit "post_template", -100); (lit "page_context", -100);
    (lit "post_page", -100); (lit "post_build", -100)
  ]%Z.

(** *** The plugin registry *)

(** [event.__self__.__class__ is cls], false when the handler has no
    [__self__]. *)
Definition bound_to_class (cls : str) (h : hook) : bool :=
  match hook_self h with
  | None => false
  | Some o => bool_decide (obj_class o = cls)
  end.

(** Lines 259-264: drop the first handler bound to an instance of [cls]. *)
Fixpoint pop_first_bound (cls : str) (event_group : list hook) : list hook :=
  match event_group with
  | [] => []
  | h :: rest =>
      if bound_to_class cls h then rest
      else h :: pop_first_bound cls rest
  end.

(** Lines 258-264, over every event group. *)
Definition strip_events (cls : str) (c : MkDocsConfig) : MkDocsConfig :=
  {| config_file_path := config_file_path c; site_dir := site_dir c;
     theme_name := theme_name c;
     plugins := {| by_name := by_name (plugins c);
                   events := pop_first_bound cls <$> events (plugins c) |} |}.

(** The host's [insort] of a handler into an event group kept by
    decreasing priority, after the handlers of equal priority. *)
Fixpoint insort (h : hook) (event_group : list hook) : list hook :=
  match event_group with
  | [] => [h]
  | h' :: rest =>
      if bool_decide (hook_priority h' < hook_priority h)%Z
      then h :: event_group
      else h' :: insort h rest
  end.

(** The host's [PluginCollection.__setitem__]: store the plugin and
    register each of its [on_*] methods in the group of its event. *)
Definition plugins_setitem (key : str) (p : plugin_obj) (c : MkDocsConfig) : MkDocsConfig :=
  {| config_file_path := config_file_path c; site_dir := site_dir c;
     theme_name := theme_name c;
     plugins :=
       {| by_name := <[key := p]> (by_name (plugins c));
          events :=
            merge (λ (group : option (list hook)) (prio : option Z),
                     match prio with
                     | Some z =>
                         Some (insort {| hook_self := Some p; hook_priority := z |}
                                      (default [] group))
                     | None => group
                     end)
                  (events (plugins c)) (obj_handles p) |} |}.

(** Lines 256-267: the internal configuration handed to [build]. *)
Definition prepare_internal_config (cls : str) (original : plugin_obj)
    (internal_config : MkDocsConfig) : MkDocsConfig :=
  plugins_setitem (lit "i18n") original (strip_events cls internal_config).

(** *** Template and page hooks *)

Section WithRuntime.
Context `{RT : Runtime}.

(** Lines 67-78. *)
Definition on_files (self : I18n) (files : pyval) (config : MkDocsConfig)
    : exn + (I18n * pyval) :=
  if bool_decide (docs_structure (self_config self) = lit "suffix") then
    match suffix_on_files self files config with
    | inl e => inl e
    | inr i18n_files =>
        match reconfigure_alternates self i18n_files with
        | inl e => inl e
        | inr (self', alternates) =>
            inr (set_i18n_alternates alternates self', i18n_files)
        end
    end
  else inl Unimplemented.

(** Lines 155-166. *)
Definition on_template_context (self : I18n) (context : gmap str pyval)
    (template_name : str) (config : MkDocsConfig) : gmap str pyval :=
  let context := <[lit "i18n_build_languages" := PyStrs (build_languages self)]> context in
  let context := <[lit "i18n_current_language_config" := current_language_config self]> context in
  let context :=
    <[lit "i18n_current_language" :=
        match current_language self with
        | Some l => PyStr l
        | None => PyNone
        end]> context in
  let context := <[lit "i18n_alternates" := i18n_alternates self]> context in
  context.

(** [next(filter(lambda l: l.locale == self.current_language,
    self.config.languages))]. *)
Definition find_current_language (self : I18n) : exn + Language :=
  match List.find (λ l, bool_decide (Some (locale l) = current_language self))
                  (languages (self_config self)) with
  | Some l => inr l
  | None => inl StopIteration
  end.

(** The text put in front of the first script element. *)
Definition i18n_script (i18_link : str) : str :=
  lit "<script>let i18n_link = " ++ dq ++ i18_link ++ dq ++ lit ";</script>".

(** Lines 178-182 and 210-214. *)
Definition inject_i18n_link (self : I18n) (output : str) : exn + str :=
  match find_current_language self with
  | inl e => inl e
  | inr current_language =>
      let i18_link := replace_all (lit "./") [] (link current_language) in
      inr (replace_first (lit "<script")
                         (i18n_script i18_link ++ lit "<script") output)
  end.

(** Lines 169-182. *)
Definition on_post_template (self : I18n) (output : str) (template_name : str)
    (config : MkDocsConfig) : exn + option str :=
  if bool_decide (template_name = lit "sitemap.xml") then inr None
  else
    match inject_i18n_link self output with
    | inl e => inl e
    | inr out => inr (Some out)
    end.

(** Lines 200-214. *)
Definition on_post_page (output : str) (page : pyval) (config : MkDocsConfig)
    (s : State) : result State str :=
  let triggered :=
    match by_name (plugins config) !! lit "with-pdf" with
    | Some _ => with_pdf_on_post_page output page config s
    | None => inr s
    end in
  match triggered with
  | inl e => Raise e s
  | inr s =>
      match inject_i18n_link (self s) output with
      | inl e => Raise e s
      | inr out => Ok out s
      end
  end.

(** *** The post-build hook *)

(** The substitution pairs of lines 279-308. *)
Definition material_pairs : list (str * str) :=
  [ (dq ++ lit "search/search_index.json" ++ dq,
     lit "`${i18n_link}search/search_index.json`") ].

Definition default_pairs : list (str * str) :=
  [ (lit "base_path = 'function' === typeof importScripts ? '.' : '/search/';",
     lit "base_path = 'function' === typeof importScripts ? '.' : '/search/'; let i18n_link;");
    (lit "({init: true});", lit "({init: true, i18n_link: i18n_link});");
    (lit "if (e.data.init) {", lit "if (e.data.init) { i18n_link = e.data.i18n_link;");
    (dq ++ lit "GET" ++ dq ++ lit ", index_path",
     dq ++ lit "GET" ++ dq ++ lit ", `../${i18n_link}search/search_index.json`");
    (lit ".push('lunr.stemmer.support.js');",
     lit ".push(`../${i18n_link}search/lunr.stemmer.support.js`);");
    (lit ".push('lunr.multi.js');", lit ".push(`../${i18n_link}search/lunr.multi.js`);");
    (lit ".push('tinyseg.js');", lit ".push(`../${i18n_link}search/tinyseg.js`);");
    (lit ".push(['lunr', lang[i], 'js'].join('.'));",
     lit ".push([`../${i18n_link}search/lunr`, lang[i], 'js'].join('.'));") ].

Definition replace_pairs (config : MkDocsConfig) : list (str * str) :=
  if bool_decide (theme_name config = Some (lit "material"))
  then material_pairs else default_pairs.

(** One substitution pair applied to one text (line 313). *)
Definition patch_text (sub : str * str) (src : str) : str :=
  replace_all sub.1 sub.2 src.

(** The files yielded by [Path(site_dir).glob("**/*.js")]. *)
Definition is_js_under (site_dir path : str) : bool :=
  starts_with (site_dir ++ lit "/") path && ends_with (lit ".js") path.

(** The outcome of the inner loop of lines 311-322 over the output tree. *)
Inductive scan :=
  | Modified (tree : list file) (path : str)
  | Unmodified
  | Unreadable (path : str).

Definition keep (f : file) (r : scan) : scan :=
  match r with
  | Modified tree path => Modified (f :: tree) path
  | Unmodified => Unmodified
  | Unreadable path => Unreadable path
  end.

(** Lines 311-317: the files are visited in directory order; the first
    one whose text changes is written back and ends the loop. *)
Fixpoint patch_scan (sub : str * str) (site_dir : str) (tree : list file) : scan :=
  match tree with
  | [] => Unmodified
  | f :: rest =>
      if is_js_under site_dir (file_path f) then
        match decode_utf8_sig (file_bytes f) with
        | None => Unreadable (file_path f)
        | Some src =>
            let out := patch_text sub src in
            if bool_decide (src = out) then keep f (patch_scan sub site_dir rest)
            else Modified ({| file_path := file_path f;
                              file_bytes := encode_utf8 out |} :: rest)
                          (file_path f)
        end
      else keep f (patch_scan sub site_dir rest)
  end.

(** Lines 311-322 for one pair. *)
Definition patch_pair (config : MkDocsConfig) (sub : str * str) (s : State)
    : result State unit :=
  match patch_scan sub (site_dir config) (fs s) with
  | Modified tree path => Ok tt (log_add (InfoModified path) (set_fs tree s))
  | Unmodified => Ok tt (log_add (ErrorNotModified (theme_name config)) s)
  | Unreadable path => Raise (ReadError path) s
  end.

(** Lines 310-322. *)
Fixpoint patch_pairs (config : MkDocsConfig) (pairs : list (str * str)) (s : State)
    : result State unit :=
  match pairs with
  | [] => Ok tt s
  | sub :: rest =>
      and_then (patch_pair config sub s) (λ _ s, patch_pairs config rest s)
  end.

Definition lift {A} (r : result State A) (w : World) : result World A :=
  match r with
  | Ok a s => Ok a {| st := s; trace := trace w |}
  | Raise e s => Raise e {| st := s; trace := trace w |}
  | OutOfFuel => OutOfFuel
  end.

(** The handler is bound to this very plugin instance. *)
Definition is_self_hook (i : I18n) (h : hook) : bool :=
  match hook_self h with
  | Some o => bool_decide (obj_id o = obj_id (self_obj i))
  | None => false
  end.

(** The host firing its [post_build] event: the handlers of the group in
    order; [nested] is the handler of this plugin. *)
Fixpoint fire_post_build (nested : MkDocsConfig → World → result World unit)
    (config : MkDocsConfig) (event_group : list hook) (w : World)
    : result World unit :=
  match event_group with
  | [] => Ok tt w
  | h :: rest =>
      and_then
        (if is_self_hook (self (st w)) h then nested config w
         else call (foreign_post_build h config) w)
        (λ _ w, fire_post_build nested config rest w)
  end.

(** The host's [build(config)]. *)
Definition build (nested : MkDocsConfig → World → result World unit)
    (config : MkDocsConfig) (w : World) : result World unit :=
  and_then (call (host_stage config) w) (λ _ w,
    fire_post_build nested config
      (default [] (events (plugins config) !! lit "post_build")) w).

(** [duplicate_filter.msgs] entry of lines 232 and 332. *)
Definition time_msg : str := lit "Documentation built in %.2f seconds".

(** Lines 247-277; [with_pdf] is the saved [output_path] when the
    with-pdf plugin is configured. *)
Fixpoint rebuild (nested : MkDocsConfig → World → result World unit)
    (config : MkDocsConfig) (with_pdf : option str) (locales : list str)
    (w : World) : result World unit :=
  match locales with
  | [] => Ok tt w
  | locale :: rest =>
      if bool_decide (Some locale = current_language (self (st w)))
      then rebuild nested config with_pdf rest w
      else
        let w := on_state (with_self (set_current_language (Some locale))) w in
        match load_config (config_file_path config) (st w) with
        | inl e => Raise e w
        | inr internal_config =>
            match by_name (plugins config) !! lit "i18n" with
            | None => Raise (KeyError (lit "i18n")) w
            | Some original =>
                let internal_config :=
                  prepare_internal_config (obj_class (self_obj (self (st w))))
                                          original internal_config in
                let w :=
                  on_state (log_add (InfoBuilding locale (site_dir internal_config))) w in
                let w := record_event (EvBuild locale internal_config) w in
                and_then (build nested internal_config w) (λ _ w,
                and_then
                  match with_pdf with
                  | Some with_pdf_output_path =>
                      let w :=
                        on_state (set_with_pdf_output_path
                                    (as_posix (locale ++ lit "/" ++ with_pdf_output_path))) w in
                      call (with_pdf_on_post_build internal_config) w
                  | None => Ok tt w
                  end
                  (λ _ w, rebuild nested config with_pdf rest w))
            end
        end
  end.

(** The state in which the rebuild loop of line 247 starts. *)
Definition loop_entry (w : World) : World :=
  record_event EvLoop (on_state (set_clean_directory NoOpCleaner) w).

(** Lines 240-332: everything after the with-pdf trigger. *)
Definition rebuild_and_patch (nested : MkDocsConfig → World → result World unit)
    (config : MkDocsConfig) (with_pdf : option str) (w : World)
    : result World unit :=
  let mkdocs_utils_clean_directory := clean_directory (st w) in
  let w := loop_entry w in
  and_then (rebuild nested config with_pdf (build_languages (self (st w))) w) (λ _ w,
  and_then (lift (patch_pairs config (replace_pairs config) (st w)) w) (λ _ w,
  let w := on_state (set_clean_directory mkdocs_utils_clean_directory) w in
  if bool_decide (time_msg ∈ duplicate_msgs (st w))
  then Ok tt (on_state (set_duplicate_msgs (duplicate_msgs (st w) ∖ {[time_msg]})) w)
  else Raise (KeyError time_msg) w)).

(** Lines 234-238. *)
Definition trigger_with_pdf (config : MkDocsConfig) (w : World)
    : result World (option str) :=
  match by_name (plugins config) !! lit "with-pdf" with
  | Some _ =>
      let with_pdf_output_path := with_pdf_output_path (st w) in
      and_then (call (with_pdf_on_post_build config) w)
               (λ _ w, Ok (Some with_pdf_output_path) w)
  | None => Ok None w
  end.

(** Lines 228-232: set the guard and silence the host's time report. *)
Definition mark_building (w : World) : World :=
  let w := on_state (with_self (set_building true)) w in
  on_state (λ s, set_duplicate_msgs ({[time_msg]} ∪ duplicate_msgs s) s) w.

(** Lines 217-332.  The fuel bounds the nesting of [on_post_build] inside
    [build] inside [on_post_build]. *)
Fixpoint on_post_build (fuel : nat) (config : MkDocsConfig) (w : World)
    : result World unit :=
  match fuel with
  | O => OutOfFuel
  | S fuel =>
      if building (self (st w)) then Ok tt w
      else
        and_then (trigger_with_pdf config (mark_building w)) (λ with_pdf w,
          rebuild_and_patch (on_post_build fuel) config with_pdf w)
  end.

(** *** Vocabulary of the statements *)

(** The state in which [on_post_page] looks the language up: the one left
    by the with-pdf handler when that plugin is configured. *)
Definition page_triggered (output : str) (page : pyval) (config : MkDocsConfig)
    (s s' : State) : Prop :=
  match by_name (plugins config) !! lit "with-pdf" with
  | Some _ => with_pdf_on_post_page output page config s = inr s'
  | None => s' = s
  end.

(** The re-entry flag of the instance. *)
Definition guard (s : State) : bool := building (self s).

(** A foreign call leaves [proj] of the state as it found it. *)
Definition preserves {A} (proj : State → A) (f : State → exn + State) : Prop :=
  ∀ s s', f s = inr s' → proj s' = proj s.

(** No foreign code run during [on_post_build] writes [proj]. *)
Definition foreign_calls_preserve {A} (proj : State → A) : Prop :=
  (∀ config, preserves proj (host_stage config))
  ∧ (∀ h config, preserves proj (foreign_post_build h config))
  ∧ (∀ config, preserves proj (with_pdf_on_post_build config)).

(** The state a call ends in, if it ends. *)
Definition final {A} (r : result World A) : option World :=
  match r with
  | Ok _ w => Some w
  | Raise _ w => Some w
  | OutOfFuel => None
  end.

(** How many times the rebuild loop was reached. *)
Definition loops (t : list event) : nat :=
  length (List.filter (λ e, match e with EvLoop => true | _ => false end) t).

(** The locales handed to [build], in order. *)
Definition built (t : list event) : list str :=
  omap (λ e, match e with EvBuild l _ => Some l | EvLoop => None end) t.

(** The handlers of an event group bound to an instance of [cls]. *)
Definition bound_hooks (cls : str) (event_group : list hook) : list hook :=
  List.filter (bound_to_class cls) event_group.

(** No [.js] file of the output tree contains the pattern of [sub]; all
    of them can be read. *)
Definition pattern_missing (config : MkDocsConfig) (sub : str * str) (s : State) : Prop :=
  ∀ f, f ∈ fs s → is_js_under (site_dir config) (file_path f) = true →
       ∃ src, decode_utf8_sig (file_bytes f) = Some src ∧ ¬ occurs sub.1 src.

(** The state after [n] reports of line 319. *)
Definition not_modified_logged (config : MkDocsConfig) (n : nat) (s : State) : State :=
  Nat.iter n (log_add (ErrorNotModified (theme_name config))) s.

(** [f] is the first file of [pre ++ f :: post] that the pair changes. *)
Definition first_changed (config : MkDocsConfig) (sub : str * str)
    (pre : list file) (f : file) (src : str) : Prop :=
  is_js_under (site_dir config) (file_path f) = true
  ∧ decode_utf8_sig (file_bytes f) = Some src
  ∧ patch_text sub src ≠ src
  ∧ ∀ f', f' ∈ pre → is_js_under (site_dir config) (file_path f') = true →
          ∃ src', decode_utf8_sig (file_bytes f') = Some src'
                  ∧ patch_text sub src' = src'.

(** The writes of the rebuild loop itself leave [proj] alone. *)
Definition loop_writes_preserve {A} (proj : State → A) : Prop :=
  (∀ l s, proj (with_self (set_current_language l) s) = proj s)
  ∧ (∀ r s, proj (log_add r s) = proj s)
  ∧ (∀ p s, proj (set_with_pdf_output_path p s) = proj s).

(** The locales the loop of lines 247-250 builds when it starts with
    [current] as the current language. *)
Fixpoint builds_from (current : option str) (locales : list str) : list str :=
  match locales with
  | [] => []
  | locale :: rest =>
      if bool_decide (Some locale = current) then builds_from current rest
      else locale :: builds_from (Some locale) rest
  end.

(** What is known of a call that ends in [w'] after starting in [w]:
    the instrumentation and the [admissible] parts of the state are as
    they were. *)
Definition framed {C} (admissible : ∀ A, (State → A) → Prop)
    (counted : list event → C) {B} (r : result World B) (w : World) : Prop :=
  ∃ w', final r = Some w'
        ∧ counted (trace w') = counted (trace w)
        ∧ ∀ A (proj : State → A), admissible A proj → proj (st w') = proj (st w).

(** What no foreign code writes. *)
Definition foreign_frame : ∀ A, (State → A) → Prop :=
  λ A proj, foreign_calls_preserve proj.

(** What neither foreign code nor the rebuild loop writes. *)
Definition loop_frame : ∀ A, (State → A) → Prop :=
  λ A proj, foreign_calls_preserve proj ∧ loop_writes_preserve proj.

(** Modelled from the spec: the output directory of the build of a
    locale, which [reconfigure_mkdocs_config] (reconfigure.py, not part of
    plugin.py) sets; the spec has it as the subdirectory of the site
    output root named after the locale, as line 140 computes it for the
    search index. *)
Definition locale_site_dir (config : MkDocsConfig) (locale : str) : str :=
  site_dir config ++ lit "/" ++ locale.

End WithRuntime.

End Hooks.

(** ** Sample values *)

Module Samples.
Import PyStr Host Hooks.

(** A runtime in which every foreign call succeeds and changes nothing;
    files hold one byte per code point. *)
Definition quiet_runtime : Runtime :=
  {| host_stage := λ _ s, inr s;
     foreign_post_build := λ _ _ s, inr s;
     load_config := λ path _,
       inr {| config_file_path := path; site_dir := lit "site";
              theme_name := Some (lit "mkdocs");
              plugins := {| by_name := ∅; events := ∅ |} |};
     with_pdf_on_post_build := λ _ s, inr s;
     with_pdf_on_post_page := λ _ _ _ s, inr s;
     as_posix := λ p, p;
     decode_utf8_sig := λ bytes, Some (Byte.to_N <$> bytes);
     encode_utf8 := λ text, (λ c, default Byte.x00 (Byte.of_N c)) <$> text;
     suffix_on_files := λ _ files _, inr files;
     reconfigure_alternates := λ self _, inr (self, PyRef 7) |}.

(** The same runtime with a host whose build fails. *)
Definition failing_runtime : Runtime :=
  {| host_stage := λ _ _, inl (HostError 1);
     foreign_post_build := λ _ _ s, inr s;
     load_config := @load_config quiet_runtime;
     with_pdf_on_post_build := λ _ s, inr s;
     with_pdf_on_post_page := λ _ _ _ s, inr s;
     as_posix := λ p, p;
     decode_utf8_sig := @decode_utf8_sig quiet_runtime;
     encode_utf8 := @encode_utf8 quiet_runtime;
     suffix_on_files := λ _ files _, inr files;
     reconfigure_alternates := λ self _, inr (self, PyRef 7) |}.

Definition i18n_obj : plugin_obj :=
  {| obj_id := 1; obj_class := I18n_class; obj_handles := I18n_handles |}.

Definition en : Language := {| locale := lit "en"; link := lit "./" |}.
Definition fr : Language := {| locale := lit "fr"; link := lit "./fr/" |}.

(** The instance after the default-language build of a site in English
    and French, the languages listed in [order]. *)
Definition plugin (order : list Language) : I18n :=
  {| self_obj := i18n_obj;
     self_config := {| docs_structure := lit "suffix";
                       reconfigure_material := false;
                       languages := order |};
     building := false;
     current_language := Some (lit "en");
     default_language := lit "en";
     build_languages := locale <$> order;
     current_language_config := PyRef 2;
     i18n_alternates := PyRef 3 |}.

(** The top-level configuration: the plugin registered under [i18n]. *)
Definition site_config (theme : str) : MkDocsConfig :=
  plugins_setitem (lit "i18n") i18n_obj
    {| config_file_path := lit "mkdocs.yml"; site_dir := lit "site";
       theme_name := Some theme;
       plugins := {| by_name := ∅; events := ∅ |} |}.

Definition js (path text : string) : file :=
  {| file_path := lit path; file_bytes := @encode_utf8 quiet_runtime (lit text) |}.

Definition world (order : list Language) (tree : list file) : World :=
  {| st := {| self := plugin order; clean_directory := HostCleaner;
              duplicate_msgs := ∅; with_pdf_output_path := lit "pdf/document.pdf";
              fs := tree; log := [] |};
     trace := [] |}.

End Samples.

(** ** The environment and page-context hooks *)

Module Env.
Import PyStr Host Hooks.

(** Lines 123-128: the first plugin registered under [search] or
    [material/search]; [items] is [config.plugins.items()], in the order in
    which the plugins were registered. *)
Definition find_search_plugin (items : list (str * plugin_obj)) : option plugin_obj :=
  snd <$> List.find (λ item, bool_decide (item.1 ∈ [lit "search"; lit "material/search"]))
                    items.

(** What [change_site_dir] returns (lines 133-143): a plain function, which
    has neither [__self__] nor a priority of its own. *)
Definition site_dir_wrapper : hook :=
  {| hook_self := None; hook_priority := 0 |}.

(** Lines 147-152: the first handler bound to an instance of [cls] is
    replaced by its wrapper; handlers without [__self__] are passed over. *)
Fixpoint wrap_first_bound (cls : str) (event_group : list hook) : list hook :=
  match event_group with
  | [] => []
  | event :: rest =>
      match hook_self event with
      | None => event :: wrap_first_bound cls rest
      | Some o =>
          if bool_decide (obj_class o = cls) then site_dir_wrapper :: rest
          else event :: wrap_first_bound cls rest
      end
  end.

Definition set_post_build (event_group : list hook) (c : MkDocsConfig) : MkDocsConfig :=
  {| config_file_path := config_file_path c; site_dir := site_dir c;
     theme_name := theme_name c;
     plugins := {| by_name := by_name (plugins c);
                   events := <[lit "post_build" := event_group]> (events (plugins c)) |} |}.

Section OnEnv.
(** [env.add_extension(loopcontrols)], of jinja2. *)
Variable add_loopcontrols : pyval → pyval.

(** Lines 118-152.  The hook returns [None]; what it leaves behind is the
    environment and the configuration. *)
Definition on_env (self : I18n) (env : pyval) (items : list (str * plugin_obj))
    (config : MkDocsConfig) : exn + (pyval * MkDocsConfig) :=
  let env := add_loopcontrols env in
  match find_search_plugin items with
  | None => inr (env, config)
  | Some search_plugin =>
      if bool_decide (current_language self = Some (default_language self))
      then inr (env, config)
      else
        match events (plugins config) !! lit "post_build" with
        | None => inl (KeyError (lit "post_build"))
        | Some event_group =>
            inr (env, set_post_build
                        (wrap_first_bound (obj_class search_plugin) event_group)
                        config)
        end
  end.

End OnEnv.

Section OnPageContext.
(** The values of a page context: the plugin's configuration, strings, and
    whatever the host and the theme put there. *)
Context {V : Type}.
Variable config_value : I18nConfig → V.
Variable str_value : str → V.

(** [self.reconfigure_page_context], of [ExtendedPlugin]. *)
Variable reconfigure_page_context :
  I18n → gmap str V → pyval → MkDocsConfig → pyval → exn + gmap str V.

(** Lines 185-197; [page_locale] is [page.file.locale]. *)
Definition on_page_context (self : I18n) (context : gmap str V) (page : pyval)
    (page_locale : str) (config : MkDocsConfig) (nav : pyval) : exn + gmap str V :=
  let context := <[lit "i18n_config" := config_value (self_config self)]> context in
  let context := <[lit "i18n_page_locale" := str_value page_locale]> context in
  if reconfigure_material (self_config self)
  then reconfigure_page_context self context page config nav
  else inr context.

End OnPageContext.

(** *** More vocabulary *)

(** The state a step of the patching ends in. *)
Definition final_state {A} (r : result State A) : option State :=
  match r with
  | Ok _ s => Some s
  | Raise _ s => Some s
  | OutOfFuel => None
  end.

(** Two output trees with the same files in the same order, the files
    outside [glob("**/*.js")] with the same bytes. *)
Definition same_layout (site_dir : str) (tree tree' : list file) : Prop :=
  Forall2 (λ f f', file_path f' = file_path f
                   ∧ (is_js_under site_dir (file_path f) = false →
                      file_bytes f' = file_bytes f))
          tree tree'.

(** A record of the patching loop: line 316 or line 319. *)
Definition patch_record (config : MkDocsConfig) (r : log_record) : Prop :=
  (∃ path, r = InfoModified path) ∨ r = ErrorNotModified (theme_name config).

(** The handlers of an event group that are not bound to an instance of
    [cls], in their order. *)
Definition other_hooks (cls : str) (event_group : list hook) : list hook :=
  List.filter (λ h, negb (bound_to_class cls h)) event_group.

End Env.

(** ** More sample values *)

Module MoreSamples.
Import PyStr Host Hooks Env.


Definition search_obj : plugin_obj :=
  {| obj_id := 5; obj_class := lit "mkdocs.contrib.search.SearchPlugin";
     obj_handles := {[ lit "post_build" := 0%Z ]} |}.

(** The registry of a site with the search plugin and the i18n plugin. *)
Definition search_site : MkDocsConfig :=
  plugins_setitem (lit "search") search_obj (Samples.site_config (lit "mkdocs")).

Definition search_items : list (str * plugin_obj) :=
  [(lit "i18n", Samples.i18n_obj); (lit "search", search_obj)].

(** The instance while French is being built. *)
Definition french_plugin : I18n :=
  set_current_language (Some (lit "fr")) (Samples.plugin [Samples.en; Samples.fr]).

End MoreSamples.

(** * Properties *)

(** ** [str.replace] *)

Module PyStrFacts.
Import PyStr.

Section ReplaceFacts.
Context {A : Type} `{EqDecision A}.
Implicit Types old new s t g u v : list A.

Lemma starts_with_prefix (pat s : list A) : starts_with pat s = true ↔ pat `prefix_of` s.
Proof.
  revert s. induction pat as [|p pat IH]; intros [|c s]; simpl.
  - split; [intros _; apply prefix_nil | done].
  - split; [intros _; apply prefix_nil | done].
  - split; [done | intros [k Hk]; discriminate].
  - rewrite andb_true_iff, bool_decide_eq_true, IH. split.
    + intros [-> Hp]. by apply prefix_cons.
    + intros [k Hk]. simplify_eq/=. split; [done | by exists k].
Qed.

Lemma starts_with_app (pat v : list A) : starts_with pat (pat ++ v) = true.
Proof. apply starts_with_prefix. by exists v. Qed.

Lemma starts_with_false (pat s : list A) : starts_with pat s = false ↔ ¬ pat `prefix_of` s.
Proof. rewrite <- starts_with_prefix. by destruct (starts_with pat s). Qed.

Lemma comparable_prefix (a b : list A) :
  comparable a b = true ↔ a `prefix_of` b ∨ b `prefix_of` a.
Proof. unfold comparable. by rewrite orb_true_iff, !starts_with_prefix. Qed.

(** Two prefixes of one list are comparable. *)
Lemma prefix_both_comparable (a b l : list A) :
  a `prefix_of` l → b `prefix_of` l → comparable a b = true.
Proof.
  intros Ha Hb. apply comparable_prefix.
  destruct (prefix_weak_total _ _ _ Ha Hb); auto.
Qed.

Lemma elem_of_tails (l t : list A) : t ∈ tails l ↔ t ≠ [] ∧ t `suffix_of` l.
Proof.
  induction l as [|x l IH]; simpl.
  - split; [by intros ?%elem_of_nil|].
    intros [Hne Hs]. apply suffix_nil_inv in Hs. done.
  - rewrite elem_of_cons, IH. split.
    + intros [->|[Hne Hs]]; [done|]. split; [done | by apply suffix_cons_r].
    + intros [Hne Hs]. destruct t as [|y t]; [done|].
      apply suffix_cons_inv in Hs as [->|Hs]; auto.
Qed.

(** *** The equations of the scan *)

Lemma replace_go_skip old new count k s :
  replace_go old new count k s = replace_go old new count 0 (drop k s).
Proof.
  revert k. induction s as [|c s IH]; intros [|k]; simpl; auto.
Qed.

Lemma replace_all_nil old new : old ≠ [] → replace_all old new [] = [].
Proof. by destruct old. Qed.

Lemma replace_all_match old new v :
  old ≠ [] → replace_all old new (old ++ v) = new ++ replace_all old new v.
Proof.
  intros Hne. destruct old as [|p old]; [done|].
  unfold replace_all, str_replace.
  change ((p :: old) ++ v) with (p :: (old ++ v)).
  cbn [replace_go].
  change (p :: (old ++ v)) with ((p :: old) ++ v).
  rewrite starts_with_app. simpl. f_equal.
  rewrite replace_go_skip. rewrite Nat.sub_0_r.
  by rewrite drop_app_length.
Qed.

Lemma replace_all_step old new c s :
  starts_with old (c :: s) = false →
  replace_all old new (c :: s) = c :: replace_all old new s.
Proof.
  intros Hs. destruct old as [|p old]; [done|].
  unfold replace_all, str_replace. cbn [replace_go]. by rewrite Hs.
Qed.

(** *** Occurrences *)

Lemma occurs_prefix old s : old `prefix_of` s → occurs old s.
Proof. intros [v ->]. by exists [], v. Qed.

Lemma occurs_cons old c s : occurs old s → occurs old (c :: s).
Proof. intros (u & v & ->). by exists (c :: u), v. Qed.

Lemma occurs_cons_inv old c s :
  occurs old (c :: s) → starts_with old (c :: s) = false → occurs old s.
Proof.
  intros (u & v & Heq) Hs. destruct u as [|x u].
  - rewrite starts_with_false in Hs. destruct Hs. by exists v.
  - simplify_eq/=. by exists u, v.
Qed.

Lemma first_at_cons old c g v :
  first_at old (c :: g) v →
  starts_with old (c :: g ++ old ++ v) = false ∧ first_at old g v.
Proof.
  intros Hf. split.
  - apply starts_with_false. intros [v' Hv'].
    specialize (Hf [] v' Hv'). simpl in Hf. lia.
  - intros g' v' Heq. specialize (Hf (c :: g') v'). simpl in Hf.
    rewrite Heq in Hf. specialize (Hf eq_refl). lia.
Qed.

Lemma occurs_first old t :
  occurs old t → ∃ g v, t = g ++ old ++ v ∧ first_at old g v.
Proof.
  induction t as [|c t IH]; intros Hocc.
  - destruct Hocc as (u & v & Heq). symmetry in Heq.
    apply app_eq_nil in Heq as [-> Heq]. apply app_eq_nil in Heq as [-> ->].
    exists [], []. split; [done|]. intros g' v' _. simpl. lia.
  - destruct (starts_with old (c :: t)) eqn:Hs.
    + apply starts_with_prefix in Hs as [v Hv]. exists [], v.
      split; [done|]. intros g' v' _. simpl. lia.
    + destruct (IH (occurs_cons_inv _ _ _ Hocc Hs)) as (g & v & -> & Hf).
      exists (c :: g), v. split; [done|]. intros [|x g'] v' Heq.
      * rewrite starts_with_false in Hs. destruct Hs. exists v'. exact Heq.
      * simplify_eq/=. specialize (Hf _ _ H0). lia.
Qed.

Lemma contains_unfold old s :
  contains old s
  = starts_with old s || match s with [] => false | _ :: s' => contains old s' end.
Proof. by destruct s. Qed.

Lemma contains_occurs old s : contains old s = true ↔ occurs old s.
Proof.
  split.
  - induction s as [|c s IH]; rewrite contains_unfold.
    + rewrite orb_false_r. intros Hp%starts_with_prefix. by apply occurs_prefix.
    + intros [Hp%starts_with_prefix|Hc]%orb_true_iff.
      * by apply occurs_prefix.
      * by apply occurs_cons, IH.
  - intros (u & v & ->). induction u as [|c u IH]; rewrite contains_unfold.
    + simpl. by rewrite starts_with_app.
    + simpl. rewrite IH. apply orb_true_r.
Qed.

Lemma replace_absent old new s : ¬ occurs old s → replace_all old new s = s.
Proof.
  intros Hno. assert (old ≠ []) as Hne.
  { intros ->. apply Hno. by exists [], s. }
  induction s as [|c s IH]; [by apply replace_all_nil|].
  rewrite replace_all_step.
  - f_equal. apply IH. intros Ho. by apply Hno, occurs_cons.
  - apply starts_with_false. intros Hp. by apply Hno, occurs_prefix.
Qed.

(** The first occurrence is the first one replaced. *)
Lemma replace_all_first old new g v :
  old ≠ [] → first_at old g v →
  replace_all old new (g ++ old ++ v) = g ++ new ++ replace_all old new v.
Proof.
  intros Hne. induction g as [|c g IH]; intros Hf; simpl.
  - by apply replace_all_match.
  - apply first_at_cons in Hf as [Hs Hf].
    rewrite replace_all_step by done. f_equal. by apply IH.
Qed.

(** With [count = 1] only the first occurrence is replaced. *)
Lemma replace_first_first old new g v :
  old ≠ [] → first_at old g v →
  replace_first old new (g ++ old ++ v) = g ++ new ++ v.
Proof.
  intros Hne. destruct old as [|p old]; [done|].
  unfold replace_first, str_replace.
  induction g as [|c g IH]; intros Hf.
  - change ([] ++ (p :: old) ++ v) with (p :: (old ++ v)).
    cbn [replace_go].
    change (p :: (old ++ v)) with ((p :: old) ++ v).
    rewrite starts_with_app. simpl. f_equal.
    rewrite replace_go_skip, Nat.sub_0_r, drop_app_length.
    by destruct v.
  - apply first_at_cons in Hf as [Hs Hf].
    change ((c :: g) ++ (p :: old) ++ v) with (c :: (g ++ (p :: old) ++ v)).
    cbn [replace_go]. rewrite Hs. simpl. f_equal. by apply IH.
Qed.

Lemma replace_first_absent old new s :
  ¬ occurs old s → replace_first old new s = s.
Proof.
  intros Hno. destruct old as [|p old].
  { destruct Hno. by exists [], s. }
  unfold replace_first, str_replace.
  induction s as [|c s IH]; [done|].
  cbn [replace_go].
  assert (starts_with (p :: old) (c :: s) = false) as ->.
  { apply starts_with_false. intros Hp. by apply Hno, occurs_prefix. }
  f_equal. apply IH. intros Ho. by apply Hno, occurs_cons.
Qed.

(** *** Patterns that cannot touch their replacement *)

Section SeamFree.
Variables old new : list A.
Hypothesis Hseam : seam_free old new = true.

Lemma seam_free_ne : old ≠ [].
Proof using Hseam.
  intros ->. unfold seam_free, comparable in Hseam. simpl in Hseam. done.
Qed.

Lemma seam_free_base : comparable old new = false.
Proof using Hseam.
  unfold seam_free in Hseam.
  apply andb_true_iff in Hseam as [[H1 _]%andb_true_iff _].
  by apply negb_true_iff.
Qed.

(** A proper non-empty suffix of [old] is not comparable with [new]. *)
Lemma seam_free_left g b :
  old = g ++ b → g ≠ [] → b ≠ [] → comparable b new = false.
Proof using Hseam.
  intros Hold Hg Hb. unfold seam_free in Hseam.
  apply andb_true_iff in Hseam as [[_ H1]%andb_true_iff _].
  rewrite forallb_forall in H1. apply negb_true_iff, H1.
  apply list_elem_of_In, elem_of_tails. split; [done|].
  destruct g as [|x g]; [done|]. subst old. simpl. by exists g.
Qed.

(** [old] is not comparable with a non-empty suffix of [new]. *)
Lemma seam_free_right t :
  t ≠ [] → t `suffix_of` new → comparable old t = false.
Proof using Hseam.
  intros Ht Hs. unfold seam_free in Hseam.
  apply andb_true_iff in Hseam as [_ H1].
  rewrite forallb_forall in H1. apply negb_true_iff, H1.
  by apply list_elem_of_In, elem_of_tails.
Qed.

(** An occurrence at the head of [g ++ replace s] was already one at the
    head of [g ++ s]. *)
Lemma seam_free_head s g :
  starts_with old (g ++ replace_all old new s) = true →
  starts_with old (g ++ s) = true.
Proof using Hseam.
  revert g. induction s as [|c s IH]; intros g.
  { by rewrite replace_all_nil by apply seam_free_ne. }
  destruct (starts_with old (c :: s)) eqn:Hs.
  - apply starts_with_prefix in Hs as [v Hv]. rewrite Hv.
    rewrite replace_all_match by apply seam_free_ne.
    rewrite !starts_with_prefix. intros Hp.
    destruct (prefix_weak_total old g (g ++ new ++ replace_all old new v))
      as [Hog|[b Hb]]; [done | by eexists | |].
    + by apply prefix_app_r.
    + destruct g as [|x g]; [by exists v|].
      destruct b as [|y b].
      { rewrite app_nil_r in Hb. subst old. by eexists. }
      exfalso. assert (comparable (y :: b) new = true) as Hc.
      { apply (prefix_both_comparable _ _ (new ++ replace_all old new v));
          [|by eexists].
        destruct Hp as [k Hk]. exists k. apply (app_inv_head (x :: g)).
        rewrite Hk, Hb. by rewrite <- app_assoc. }
      by rewrite (seam_free_left (x :: g) (y :: b)) in Hc.
  - rewrite replace_all_step by done.
    rewrite !(cons_middle c), !app_assoc. apply IH.
Qed.

(** The scan copies a freshly inserted [new] unchanged. *)
Lemma seam_free_copy t r :
  t `suffix_of` new →
  replace_all old new (t ++ r) = t ++ replace_all old new r.
Proof using Hseam.
  induction t as [|c t IH]; intros Hs; [done|].
  simpl. rewrite replace_all_step.
  - f_equal. apply IH. by apply suffix_cons_l in Hs.
  - destruct (starts_with old (c :: t ++ r)) eqn:E; [|done].
    apply starts_with_prefix in E.
    assert (comparable old (c :: t) = true) as Hc.
    { apply (prefix_both_comparable _ _ ((c :: t) ++ r)); [done|].
      by apply prefix_app_r. }
    by rewrite seam_free_right in Hc.
Qed.

Lemma seam_free_idempotent_len n s :
  length s ≤ n →
  replace_all old new (replace_all old new s) = replace_all old new s.
Proof using Hseam.
  revert s. induction n as [|n IH]; intros s Hlen.
  { destruct s; [|simpl in Hlen; lia].
    by rewrite !replace_all_nil by apply seam_free_ne. }
  destruct s as [|c s].
  { by rewrite !replace_all_nil by apply seam_free_ne. }
  destruct (starts_with old (c :: s)) eqn:Hs.
  - apply starts_with_prefix in Hs as [v Hv]. rewrite Hv.
    rewrite replace_all_match by apply seam_free_ne.
    rewrite seam_free_copy by done. f_equal. apply IH.
    pose proof seam_free_ne as Hne.
    apply (f_equal length) in Hv. rewrite length_app in Hv. simpl in *.
    destruct old; [done|]. simpl in *. lia.
  - rewrite replace_all_step by done.
    rewrite replace_all_step.
    + f_equal. apply IH. simpl in Hlen. lia.
    + destruct (starts_with old (c :: replace_all old new s)) eqn:E; [|done].
      apply (seam_free_head s [c]) in E. simpl in E. congruence.
Qed.

(** Replacing twice is replacing once. *)
Lemma seam_free_idempotent s :
  replace_all old new (replace_all old new s) = replace_all old new s.
Proof using Hseam. by apply (seam_free_idempotent_len (length s)). Qed.

(** A text that the replacement leaves alone does not contain [old]. *)
Lemma seam_free_fixed t : replace_all old new t = t → ¬ occurs old t.
Proof using Hseam.
  intros Hfix Hocc.
  destruct (occurs_first _ _ Hocc) as (g & v & -> & Hf).
  rewrite replace_all_first in Hfix by (apply seam_free_ne || done).
  apply app_inv_head in Hfix.
  assert (comparable old new = true) as Hc.
  { apply (prefix_both_comparable _ _ (old ++ v)); [by apply prefix_app_r|].
    rewrite <- Hfix. by apply prefix_app_r. }
  by rewrite seam_free_base in Hc.
Qed.

(** After one replacement the pattern is gone. *)
Lemma seam_free_gone s : ¬ occurs old (replace_all old new s).
Proof using Hseam. apply seam_free_fixed, seam_free_idempotent. Qed.

End SeamFree.

End ReplaceFacts.

End PyStrFacts.

(** ** The template and page hooks *)

Import PyStr PyStrFacts Host Hooks.

Section PageHooks.
Context `{RT : Runtime}.

Lemma find_current_language_some self l :
  find_current_language self = inr l →
  l ∈ languages (self_config self) ∧ Some (locale l) = current_language self.
Proof.
  unfold find_current_language.
  destruct (List.find _ _) as [l'|] eqn:Hf; [|done].
  intros [= <-]. apply find_some in Hf as [Hin Hb].
  split; [by apply list_elem_of_In | by apply bool_decide_eq_true in Hb].
Qed.

Lemma find_current_language_found self :
  (∃ l, l ∈ languages (self_config self)
        ∧ Some (locale l) = current_language self) →
  ∃ l, find_current_language self = inr l.
Proof.
  intros (l & Hin & Hl). unfold find_current_language.
  destruct (List.find _ _) as [l'|] eqn:Hf; [by eexists|].
  apply list_elem_of_In in Hin. apply (find_none _ _ Hf) in Hin.
  by apply bool_decide_eq_false in Hin.
Qed.

Lemma find_current_language_missing self :
  (∀ l, l ∈ languages (self_config self) →
        Some (locale l) ≠ current_language self) →
  find_current_language self = inl StopIteration.
Proof.
  intros Hno. unfold find_current_language.
  destruct (List.find _ _) as [l'|] eqn:Hf; [|done].
  apply find_some in Hf as [Hin Hb].
  apply bool_decide_eq_true in Hb. by apply list_elem_of_In, Hno in Hin.
Qed.

(** What [inject_i18n_link] returns once the language entry is found. *)
Lemma inject_i18n_link_found self l output :
  find_current_language self = inr l →
  inject_i18n_link self output =
    inr (replace_first (lit "<script")
           (i18n_script (replace_all (lit "./") [] (link l)) ++ lit "<script")
           output).
Proof. unfold inject_i18n_link. by intros ->. Qed.

Lemma on_post_page_triggered output page config s s' :
  page_triggered output page config s s' →
  on_post_page output page config s =
    match inject_i18n_link (self s') output with
    | inl e => Raise e s'
    | inr out => Ok out s'
    end.
Proof.
  unfold page_triggered, on_post_page.
  destruct (by_name (plugins config) !! lit "with-pdf"); by intros ->.
Qed.

Lemma lit_neq (a b : string) : lit a ≠ lit b ↔ a ≠ b.
Proof.
  assert (∀ (x y : list ascii),
            (λ c, N_of_ascii c) <$> x = (λ c, N_of_ascii c) <$> y → x = y) as Hinj.
  { induction x as [|c x IH]; intros [|d y]; simpl; intros Heq; try done.
    injection Heq as Hc Hx. f_equal; [|by apply IH].
    by rewrite <- (ascii_N_embedding c), <- (ascii_N_embedding d), Hc. }
  unfold lit. split.
  - intros Hne ->. by apply Hne.
  - intros Hne Heq. apply Hne. apply Hinj in Heq.
    by rewrite <- (string_of_list_ascii_of_string a),
               <- (string_of_list_ascii_of_string b), Heq.
Qed.

(** C7: the context returned by [on_template_context] maps
    [i18n_build_languages], [i18n_current_language] and [i18n_alternates]
    to the plugin's build-language list, its current language and its
    alternates map; on an instance left by [on_files] that map is the one
    [on_files] computed from the language-specific file tree. *)
Theorem on_template_context_i18n_entries
    (self0 self : I18n) (files i18n_files : pyval) (config : MkDocsConfig)
    (context : gmap str pyval) (template_name : str) :
  let returned := on_template_context self context template_name config in
  returned !! lit "i18n_build_languages" = Some (PyStrs (build_languages self))
  ∧ returned !! lit "i18n_current_language"
    = Some (match current_language self with
            | Some l => PyStr l
            | None => PyNone
            end)
  ∧ returned !! lit "i18n_alternates" = Some (i18n_alternates self)
  ∧ (on_files self0 files config = inr (self, i18n_files) →
     suffix_on_files self0 files config = inr i18n_files
     ∧ ∃ self1, reconfigure_alternates self0 i18n_files
                = inr (self1, i18n_alternates self)).
Proof.
  unfold on_template_context. cbv zeta. repeat split.
  - rewrite !lookup_insert_ne by (by apply lit_neq). apply lookup_insert_eq.
  - rewrite lookup_insert_ne by (by apply lit_neq). apply lookup_insert_eq.
  - apply lookup_insert_eq.
  - unfold on_files in H. case_bool_decide; [|done].
    destruct (suffix_on_files self0 files config) as [e|fs0]; [done|].
    destruct (reconfigure_alternates self0 fs0) as [e|[self1 alt]]; [done|].
    by injection H as _ <-.
  - unfold on_files in H. case_bool_decide; [|done].
    destruct (suffix_on_files self0 files config) as [e|fs0]; [done|].
    destruct (reconfigure_alternates self0 fs0) as [e|[self1 alt]] eqn:Hr; [done|].
    injection H as <- <-. by exists self1.
Qed.

(** C9: [on_post_template] returns [None] exactly for the template
    [sitemap.xml]; for the other templates, and in [on_post_page], the
    output is returned with the script element defining [i18n_link] put
    in front of its first [<script] and nothing else changed; an output
    without [<script] is returned as it is. *)
Theorem post_hooks_insert_before_first_script
    (self : I18n) (output template_name : str) (config : MkDocsConfig)
    (page : pyval) (s s' : State) :
  on_post_template self output (lit "sitemap.xml") config = inr None
  ∧ (template_name ≠ lit "sitemap.xml" →
     on_post_template self output template_name config ≠ inr None
     ∧ ∀ l, find_current_language self = inr l →
         let script := i18n_script (replace_all (lit "./") [] (link l)) in
         (∀ g v, output = g ++ lit "<script" ++ v →
                 first_at (lit "<script") g v →
                 on_post_template self output template_name config
                 = inr (Some (g ++ script ++ lit "<script" ++ v)))
         ∧ (¬ occurs (lit "<script") output →
            on_post_template self output template_name config
            = inr (Some output)))
  ∧ (page_triggered output page config s s' →
     ∀ l, find_current_language (Host.self s') = inr l →
       let script := i18n_script (replace_all (lit "./") [] (link l)) in
       (∀ g v, output = g ++ lit "<script" ++ v →
               first_at (lit "<script") g v →
               on_post_page output page config s
               = Ok (g ++ script ++ lit "<script" ++ v) s')
       ∧ (¬ occurs (lit "<script") output →
          on_post_page output page config s = Ok output s')).
Proof.
  split; [done|]. split.
  - intros Hname. unfold on_post_template.
    rewrite bool_decide_eq_false_2 by done. split.
    { by destruct (inject_i18n_link self output). }
    intros l Hl. cbv zeta. rewrite (inject_i18n_link_found _ _ _ Hl). split.
    + intros g v -> Hfirst. rewrite replace_first_first by done.
      by rewrite <- !app_assoc.
    + intros Hno. by rewrite replace_first_absent.
  - intros Htrig l Hl. cbv zeta.
    rewrite (on_post_page_triggered _ _ _ _ _ Htrig).
    rewrite (inject_i18n_link_found _ _ _ Hl). split.
    + intros g v -> Hfirst. rewrite replace_first_first by done.
      by rewrite <- !app_assoc.
    + intros Hno. by rewrite replace_first_absent.
Qed.

(** C10: outside [sitemap.xml], [on_post_template] and [on_post_page]
    return an output when some configured language has the current
    language as its locale, and raise [StopIteration] when none has. *)
Theorem language_lookup_precondition
    (self : I18n) (output template_name : str) (config : MkDocsConfig)
    (page : pyval) (s s' : State) :
  template_name ≠ lit "sitemap.xml" →
  page_triggered output page config s s' →
  ((∃ l, l ∈ languages (self_config self)
         ∧ Some (locale l) = current_language self) →
   ∃ out, on_post_template self output template_name config = inr (Some out))
  ∧ ((∀ l, l ∈ languages (self_config self) →
           Some (locale l) ≠ current_language self) →
     on_post_template self output template_name config = inl StopIteration)
  ∧ ((∃ l, l ∈ languages (self_config (Host.self s'))
           ∧ Some (locale l) = current_language (Host.self s')) →
     ∃ out, on_post_page output page config s = Ok out s')
  ∧ ((∀ l, l ∈ languages (self_config (Host.self s')) →
           Some (locale l) ≠ current_language (Host.self s')) →
     on_post_page output page config s = Raise StopIteration s').
Proof.
  intros Hname Htrig. unfold on_post_template.
  rewrite bool_decide_eq_false_2 by done.
  rewrite (on_post_page_triggered _ _ _ _ _ Htrig).
  repeat split.
  - intros [l Hl]%find_current_language_found.
    rewrite (inject_i18n_link_found _ _ _ Hl). by eexists.
  - intros Hno%find_current_language_missing.
    unfold inject_i18n_link. by rewrite Hno.
  - intros [l Hl]%find_current_language_found.
    rewrite (inject_i18n_link_found _ _ _ Hl). by eexists.
  - intros Hno%find_current_language_missing.
    unfold inject_i18n_link. by rewrite Hno.
Qed.

End PageHooks.

Lemma on_template_context_i18n_entries_witness :
  ∃ self1, @reconfigure_alternates Samples.quiet_runtime
             (Samples.plugin [Samples.en; Samples.fr]) (PyRef 5)
           = inr (self1, PyRef 7).
Proof.
  apply (@on_template_context_i18n_entries Samples.quiet_runtime
           (Samples.plugin [Samples.en; Samples.fr])
           (set_i18n_alternates (PyRef 7) (Samples.plugin [Samples.en; Samples.fr]))
           (PyRef 5) (PyRef 5) (Samples.site_config (lit "mkdocs")) ∅ (lit "sitemap.xml")).
  reflexivity.
Defined.

Lemma post_hooks_insert_before_first_script_witness :
  on_post_template (Samples.plugin [Samples.en; Samples.fr])
    (lit "<p><script>a</script><script>b</script>") (lit "main.html")
    (Samples.site_config (lit "mkdocs"))
  = inr (Some (lit "<p><script>let i18n_link = " ++ dq ++ dq
               ++ lit ";</script><script>a</script><script>b</script>")).
Proof.
  destruct (@post_hooks_insert_before_first_script Samples.quiet_runtime
              (Samples.plugin [Samples.en; Samples.fr])
              (lit "<p><script>a</script><script>b</script>") (lit "main.html")
              (Samples.site_config (lit "mkdocs")) PyNone
              (st (Samples.world [] [])) (st (Samples.world [] [])))
    as (_ & Htemplate & _).
  destruct Htemplate as [_ Hinsert]; [by apply lit_neq|].
  destruct (Hinsert Samples.en eq_refl) as [Hfirst _].
  apply (Hfirst (lit "<p>") (lit ">a</script><script>b</script>") eq_refl).
  intros [|a [|b [|c g']]] v' Heq; simpl; try lia; vm_compute in Heq; discriminate.
Defined.

Lemma language_lookup_precondition_witness :
  ∃ out, on_post_template (Samples.plugin [Samples.en; Samples.fr])
           (lit "<script>") (lit "main.html") (Samples.site_config (lit "mkdocs"))
         = inr (Some out).
Proof.
  refine (proj1 (@language_lookup_precondition Samples.quiet_runtime
                   (Samples.plugin [Samples.en; Samples.fr])
                   (lit "<script>") (lit "main.html")
                   (Samples.site_config (lit "mkdocs")) PyNone
                   (st (Samples.world [] [])) (st (Samples.world [] [])) _ _) _).
  - by apply lit_neq.
  - vm_compute. reflexivity.
  - exists Samples.en. split; [apply list_elem_of_here | reflexivity].
Defined.

(** ** The substitution pairs *)

Lemma patch_text_seam_free (sub : str * str) (src : str) :
  seam_free sub.1 sub.2 = true →
  patch_text sub (patch_text sub src) = patch_text sub src
  ∧ ¬ occurs sub.1 (patch_text sub src).
Proof.
  intros Hseam. unfold patch_text. split.
  - by apply seam_free_idempotent.
  - by apply seam_free_gone.
Qed.

(** C3, as the code has it: for the pair of the material theme, and for
    the second and the fourth to eighth pairs of the other themes, a text
    patched once no longer contains the pattern and a second patch leaves
    it unchanged.  (The first and third pairs of the other themes have a
    replacement that contains the pattern.) *)
Theorem patch_twice_is_patch_once (sub : str * str) (src : str) :
  sub ∈ material_pairs
  ∨ (∃ i, i ∈ [1; 3; 4; 5; 6; 7] ∧ default_pairs !! i = Some sub) →
  patch_text sub (patch_text sub src) = patch_text sub src
  ∧ ¬ occurs sub.1 (patch_text sub src).
Proof.
  intros Hsub. apply patch_text_seam_free.
  destruct Hsub as [Hm|(i & Hi & Hd)].
  - apply list_elem_of_singleton in Hm as ->. by vm_compute.
  - repeat (apply elem_of_cons in Hi as [->|Hi]);
      [injection Hd as <-; by vm_compute ..|].
    by apply elem_of_nil in Hi.
Qed.

Lemma patch_twice_is_patch_once_witness :
  let sub := (lit "({init: true});", lit "({init: true, i18n_link: i18n_link});") in
  patch_text sub (patch_text sub (lit "w.postMessage({init: true});"))
  = patch_text sub (lit "w.postMessage({init: true});").
Proof.
  refine (proj1 (patch_twice_is_patch_once _ _ _)).
  right. exists 1. split; [apply list_elem_of_here | reflexivity].
Defined.

(** C3 as stated fails: the third pair of the themes other than material
    puts its own pattern back, so a second patch changes the text again. *)
Lemma patch_twice_changes_again :
  let config := Samples.site_config (lit "mkdocs") in
  let sub := (lit "if (e.data.init) {",
              lit "if (e.data.init) { i18n_link = e.data.i18n_link;") in
  let src := lit "if (e.data.init) { run(); }" in
  replace_pairs config !! 2 = Some sub
  ∧ patch_text sub (patch_text sub src) ≠ patch_text sub src
  ∧ occurs sub.1 (patch_text sub src).
Proof.
  cbv zeta. split; [by vm_compute|]. split.
  - vm_compute. discriminate.
  - exists [], (lit " i18n_link = e.data.i18n_link; run(); }"). by vm_compute.
Qed.

(** ** The plugin registry *)

Section Registry.
Variable cls : str.

Lemma bound_hooks_pop (event_group : list hook) :
  length (bound_hooks cls (pop_first_bound cls event_group))
  = pred (length (bound_hooks cls event_group)).
Proof.
  unfold bound_hooks.
  induction event_group as [|h rest IH]; [done|]. simpl.
  destruct (bound_to_class cls h) eqn:Hb; simpl; [done|].
  by rewrite Hb.
Qed.

Lemma bound_hooks_insort (h : hook) (event_group : list hook) :
  bound_hooks cls (insort h event_group) ≡ₚ bound_hooks cls (h :: event_group).
Proof.
  unfold bound_hooks.
  induction event_group as [|h' rest IH]; [done|]. simpl in *.
  case_bool_decide; simpl; [done|].
  destruct (bound_to_class cls h'), (bound_to_class cls h); simpl in *;
    rewrite IH; try done. apply perm_swap.
Qed.

(** A group without handlers of the class gets at most the registered one. *)
Lemma bound_hooks_insort_fresh (p : plugin_obj) (z : Z) (event_group : list hook) :
  bound_hooks cls event_group = [] →
  ∀ h, h ∈ bound_hooks cls
             (insort {| hook_self := Some p; hook_priority := z |} event_group) →
       h = {| hook_self := Some p; hook_priority := z |}.
Proof.
  intros Hnone h. rewrite bound_hooks_insort. unfold bound_hooks in *. simpl.
  rewrite Hnone. destruct (bound_to_class cls _).
  - by intros ->%list_elem_of_singleton.
  - by intros ?%elem_of_nil.
Qed.

Lemma prepared_events (original : plugin_obj) (internal_config : MkDocsConfig)
    (name : str) :
  events (plugins (prepare_internal_config cls original internal_config)) !! name
  = match obj_handles original !! name with
    | Some z =>
        Some (insort {| hook_self := Some original; hook_priority := z |}
                (default [] (pop_first_bound cls
                               <$> events (plugins internal_config) !! name)))
    | None => pop_first_bound cls <$> events (plugins internal_config) !! name
    end.
Proof.
  unfold prepare_internal_config, plugins_setitem, strip_events. simpl.
  rewrite lookup_merge, lookup_fmap.
  destruct (events (plugins internal_config) !! name),
           (obj_handles original !! name); done.
Qed.

(** C4: when each event group of the freshly loaded configuration holds
    at most one handler bound to an instance of the plugin class, then
    after the handlers are stripped and the original instance is assigned
    again each event group holds at most one such handler, and it is bound
    to the original instance. *)
Theorem prepared_registry_single_instance
    (original : plugin_obj) (internal_config : MkDocsConfig) :
  (∀ name event_group,
      events (plugins internal_config) !! name = Some event_group →
      length (bound_hooks cls event_group) ≤ 1) →
  ∀ name event_group,
    events (plugins (prepare_internal_config cls original internal_config)) !! name
    = Some event_group →
    length (bound_hooks cls event_group) ≤ 1
    ∧ ∀ h, h ∈ bound_hooks cls event_group → hook_self h = Some original.
Proof.
  intros Hfresh name event_group. rewrite prepared_events.
  assert (bound_hooks cls
            (default [] (pop_first_bound cls
                           <$> events (plugins internal_config) !! name)) = [])
    as Hnone.
  { destruct (events (plugins internal_config) !! name) as [g|] eqn:Hg; [|done].
    simpl. apply length_zero_iff_nil. rewrite bound_hooks_pop.
    specialize (Hfresh _ _ Hg). lia. }
  destruct (obj_handles original !! name) as [z|].
  - intros [= <-]. split.
    + rewrite bound_hooks_insort. unfold bound_hooks in *. simpl.
      rewrite Hnone. destruct (bound_to_class cls _); simpl; lia.
    + by intros h ->%bound_hooks_insort_fresh.
  - destruct (events (plugins internal_config) !! name) as [g|]; [|done].
    simpl in *. intros [= <-]. rewrite Hnone. simpl. split; [lia|].
    by intros h ?%elem_of_nil.
Qed.

End Registry.

Lemma prepared_registry_single_instance_witness :
  length (bound_hooks I18n_class
            [ {| hook_self := Some Samples.i18n_obj; hook_priority := (-100)%Z |};
              {| hook_self := None; hook_priority := (-200)%Z |} ]) ≤ 1.
Proof.
  pose (fresh := {| obj_id := 2; obj_class := I18n_class;
                    obj_handles := I18n_handles |}).
  refine (proj1 (prepared_registry_single_instance I18n_class Samples.i18n_obj
                   {| config_file_path := lit "mkdocs.yml"; site_dir := lit "site";
                      theme_name := None;
                      plugins :=
                        {| by_name := {[ lit "i18n" := fresh ]};
                           events :=
                             {[ lit "post_build" :=
                                  [ {| hook_self := Some fresh; hook_priority := (-100)%Z |};
                                    {| hook_self := None; hook_priority := (-200)%Z |} ] ]} |} |}
                   _ (lit "post_build") _ _)).
  - intros name event_group Hg. simpl in Hg.
    apply lookup_singleton_Some in Hg as [_ <-]. vm_compute. lia.
  - by vm_compute.
Defined.

(** ** Patching the generated JavaScript *)

Section Patch.
Context `{RT : Runtime}.
Implicit Types (config : MkDocsConfig) (sub : str * str) (s : State).

Lemma patch_scan_missing config sub s :
  pattern_missing config sub s →
  patch_scan sub (site_dir config) (fs s) = Unmodified.
Proof.
  unfold pattern_missing. induction (fs s) as [|f rest IH]; intros Hmiss; [done|].
  simpl. rewrite IH by (intros f' Hf'; apply Hmiss; by right).
  destruct (is_js_under (site_dir config) (file_path f)) eqn:Hjs; [|done].
  destruct (Hmiss f) as (src & -> & Hno); [by left | done |].
  unfold patch_text. rewrite replace_absent by done.
  by rewrite bool_decide_eq_true_2.
Qed.

Lemma patch_pair_missing config sub s :
  pattern_missing config sub s →
  patch_pair config sub s = Ok tt (not_modified_logged config 1 s).
Proof. intros Hmiss. unfold patch_pair. by rewrite patch_scan_missing. Qed.

Lemma pattern_missing_logged config sub s n :
  pattern_missing config sub s →
  pattern_missing config sub (not_modified_logged config n s).
Proof.
  unfold pattern_missing.
  assert (fs (not_modified_logged config n s) = fs s) as ->; [|done].
  induction n as [|n IH]; [done|]. simpl. exact IH.
Qed.

Lemma patch_pairs_missing config pairs s :
  (∀ sub, sub ∈ pairs → pattern_missing config sub s) →
  patch_pairs config pairs s
  = Ok tt (not_modified_logged config (length pairs) s).
Proof.
  revert s. induction pairs as [|sub rest IH]; intros s Hmiss; [done|].
  simpl. rewrite patch_pair_missing by (apply Hmiss; by left). simpl.
  rewrite IH.
  - f_equal. unfold not_modified_logged. simpl.
    by rewrite <- Nat.iter_succ, Nat.iter_succ_r.
  - intros sub' Hin. apply (pattern_missing_logged _ _ _ 1).
    apply Hmiss. by right.
Qed.

(** What the inner loop does to the output tree. *)
Lemma patch_scan_modified config sub tree tree' path :
  patch_scan sub (site_dir config) tree = Modified tree' path →
  ∃ pre f post src,
    tree = pre ++ f :: post
    ∧ tree' = pre ++ {| file_path := file_path f;
                        file_bytes := encode_utf8 (patch_text sub src) |} :: post
    ∧ path = file_path f
    ∧ first_changed config sub pre f src.
Proof.
  revert tree'. induction tree as [|f rest IH]; intros tree'; [done|]. simpl.
  assert (∀ t, keep f (patch_scan sub (site_dir config) rest) = Modified t path →
               (is_js_under (site_dir config) (file_path f) = true →
                ∃ src', decode_utf8_sig (file_bytes f) = Some src'
                        ∧ patch_text sub src' = src') →
               ∃ pre f0 post src,
                 f :: rest = pre ++ f0 :: post
                 ∧ t = pre ++ {| file_path := file_path f0;
                                 file_bytes := encode_utf8 (patch_text sub src) |} :: post
                 ∧ path = file_path f0
                 ∧ first_changed config sub pre f0 src) as Hkeep.
  { intros t Hk Hf.
    destruct (patch_scan sub (site_dir config) rest) as [t0 p0| |] eqn:Hs; try done.
    injection Hk as <- <-.
    destruct (IH _ eq_refl) as (pre & f0 & post & src & -> & -> & -> & Hjs & Hd & Hne & Hpre).
    exists (f :: pre), f0, post, src. repeat split; try done.
    intros f' [->|Hin]%elem_of_cons; [done | by apply Hpre]. }
  destruct (is_js_under (site_dir config) (file_path f)) eqn:Hjs.
  - destruct (decode_utf8_sig (file_bytes f)) as [src|] eqn:Hd; [|done].
    case_bool_decide as Heq.
    + intros Hk. apply Hkeep; [done|]. intros _. by exists src.
    + intros [= <- <-]. exists [], f, rest, src. repeat split; try done.
      by intros f' ?%elem_of_nil.
  - intros Hk. apply Hkeep; [done | done].
Qed.

(** C6: when no JavaScript file contains the pattern of a pair,
    [on_post_build] reports the error of line 319 without raising, goes
    on with the remaining pairs, and, when that holds for every pair,
    ends the patching, puts [clean_directory] back and leaves the output
    tree as the builds left it. *)
Theorem missing_pattern_is_logged_and_skipped config sub rest s :
  pattern_missing config sub s →
  patch_pair config sub s = Ok tt (not_modified_logged config 1 s)
  ∧ patch_pairs config (sub :: rest) s
    = patch_pairs config rest (not_modified_logged config 1 s)
  ∧ ∀ nested with_pdf w w1,
      st w1 = s →
      (∀ sub', sub' ∈ replace_pairs config → pattern_missing config sub' s) →
      rebuild nested config with_pdf (build_languages (self (st w)))
        (loop_entry w)
      = Ok tt w1 →
      ∃ w', (rebuild_and_patch nested config with_pdf w = Ok tt w'
             ∨ rebuild_and_patch nested config with_pdf w
               = Raise (KeyError time_msg) w')
            ∧ fs (st w') = fs s
            ∧ clean_directory (st w') = clean_directory (st w)
            ∧ log (st w')
              = log s ++ replicate (length (replace_pairs config))
                                   (ErrorNotModified (theme_name config)).
Proof.
  intros Hmiss. split; [by apply patch_pair_missing|]. split.
  { simpl. by rewrite patch_pair_missing. }
  intros nested with_pdf w w1 Hs Hall Hloop.
  unfold rebuild_and_patch. cbv zeta. simpl in *. rewrite Hloop. simpl.
  rewrite Hs, patch_pairs_missing by done. simpl.
  assert (∀ n, fs (not_modified_logged config n s) = fs s
               ∧ duplicate_msgs (not_modified_logged config n s) = duplicate_msgs s
               ∧ log (not_modified_logged config n s)
                 = log s ++ replicate n (ErrorNotModified (theme_name config)))
    as Hlogged.
  { induction n as [|n (IH1 & IH2 & IH3)]; simpl.
    - by rewrite app_nil_r.
    - repeat split; try done. rewrite IH3, <- app_assoc. f_equal.
      symmetry. apply replicate_cons_app. }
  destruct (Hlogged (length (replace_pairs config))) as (Hfs & Hmsgs & Hlog).
  case_bool_decide; eexists; (split; [by (left + right)|]); simpl; done.
Qed.

(** C8: for one pair, [on_post_build] rewrites no file or exactly one,
    the first [.js] file in directory order whose text the replacement
    changes; every other file of the tree, the later ones that contain the
    pattern included, keeps its bytes. *)
Theorem patch_pair_rewrites_at_most_one_file config sub s :
  match patch_pair config sub s with
  | Ok _ s' =>
      fs s' = fs s
      ∨ ∃ pre f post src,
          fs s = pre ++ f :: post
          ∧ fs s' = pre ++ {| file_path := file_path f;
                              file_bytes := encode_utf8 (patch_text sub src) |} :: post
          ∧ first_changed config sub pre f src
  | Raise _ s' => fs s' = fs s
  | OutOfFuel => False
  end.
Proof.
  unfold patch_pair.
  destruct (patch_scan sub (site_dir config) (fs s)) as [tree path| |] eqn:Hscan;
    simpl; [|by left|done].
  right. apply patch_scan_modified in Hscan
    as (pre & f & post & src & -> & -> & -> & Hfirst).
  by exists pre, f, post, src.
Qed.

End Patch.

(** ** The post-build hook *)

Section PostBuild.
Context `{RT : Runtime}.
Implicit Types (config : MkDocsConfig) (w : World) (s : State).

(** Lines 225-226. *)
Lemma on_post_build_guarded n config w :
  building (self (st w)) = true → on_post_build (S n) config w = Ok tt w.
Proof. intros Hb. simpl. by rewrite Hb. Qed.

Lemma call_frame (f : State → exn + State) w :
  ∃ w', final (call f w) = Some w'
        ∧ trace w' = trace w
        ∧ ∀ A (proj : State → A), preserves proj f → proj (st w') = proj (st w).
Proof.
  unfold call. destruct (f (st w)) as [e|s'] eqn:Hf; eexists; simpl;
    (split; [done|]); (split; [done|]); intros A proj Hp; [done|].
  by apply Hp.
Qed.

Lemma framed_guard {B C} (adm : ∀ A, (State → A) → Prop) (counted : list event → C) (r : result World B) w w' :
  adm bool guard →
  framed adm counted r w → final r = Some w' →
  building (self (st w')) = building (self (st w)).
Proof.
  intros Hf (w0 & Hfin & _ & Hframe) Hw. rewrite Hfin in Hw.
  injection Hw as <-. by apply (Hframe _ guard).
Qed.

Lemma framed_and_then {B C D} (adm : ∀ A, (State → A) → Prop) (counted : list event → D) (r : result World B)
    (k : B → World → result World C) w :
  framed adm counted r w →
  (∀ b w', r = Ok b w' → framed adm counted (k b w') w') →
  framed adm counted (and_then r k) w.
Proof.
  intros (w1 & Hfin & Ht & Hframe) Hk. destruct r as [b w0|e w0|]; simpl in *.
  - injection Hfin as ->.
    destruct (Hk b w1 eq_refl) as (w2 & Hfin2 & Ht2 & Hframe2).
    exists w2. split; [done|]. split; [congruence|].
    intros A proj Hp. rewrite Hframe2, Hframe; done.
  - by exists w1.
  - done.
Qed.

Lemma framed_call {C} (adm : ∀ A, (State → A) → Prop)
    (counted : list event → C) (f : State → exn + State) w :
  (∀ A (proj : State → A), adm A proj → preserves proj f) →
  framed adm counted (call f w) w.
Proof.
  intros Hf. destruct (call_frame f w) as (w' & Hfin & Ht & Hframe).
  exists w'. split; [done|]. split; [by rewrite Ht|].
  intros A proj Hp. by apply Hframe, Hf.
Qed.

Lemma framed_weaken {B C} (adm adm' : ∀ A, (State → A) → Prop)
    (counted : list event → C) (r : result World B) w :
  (∀ A (proj : State → A), adm' A proj → adm A proj) →
  framed adm counted r w → framed adm' counted r w.
Proof.
  intros Hadm (w' & Hfin & Ht & Hframe). exists w'.
  split; [done|]. split; [done|]. intros A proj Hp. by apply Hframe, Hadm.
Qed.

Lemma framed_from {B C} (adm : ∀ A, (State → A) → Prop) (counted : list event → C) (r : result World B) w0 w :
  counted (trace w) = counted (trace w0) →
  (∀ A (proj : State → A), adm A proj → proj (st w) = proj (st w0)) →
  framed adm counted r w → framed adm counted r w0.
Proof.
  intros Ht Hp (w' & Hfin & Ht' & Hframe). exists w'.
  split; [done|]. split; [congruence|].
  intros A proj Hf. rewrite Hframe, Hp; done.
Qed.

Lemma guard_loop_writes : loop_writes_preserve guard.
Proof. by repeat split. Qed.

Section Nested.
Variable nested : MkDocsConfig → World → result World unit.
Hypothesis nested_guarded :
  ∀ config w, building (self (st w)) = true → nested config w = Ok tt w.
Hypothesis foreign_guard : foreign_calls_preserve guard.
Context {C : Type} (counted : list event → C).

Lemma fire_post_build_framed config event_group w :
  building (self (st w)) = true →
  framed foreign_frame counted (fire_post_build nested config event_group w) w.
Proof using nested_guarded foreign_guard.
  revert w. induction event_group as [|h rest IH]; intros w Hb; simpl.
  { by exists w. }
  apply framed_and_then.
  - destruct (is_self_hook (self (st w)) h).
    + rewrite nested_guarded by done. by exists w.
    + apply framed_call. intros A proj (_ & Hp & _). apply Hp.
  - intros [] w' Hstep. apply IH.
    destruct (is_self_hook (self (st w)) h).
    + rewrite nested_guarded in Hstep by done. by injection Hstep as <-.
    + rewrite <- Hb.
      apply (framed_guard foreign_frame counted
               (call (foreign_post_build h config) w));
        [done | | by rewrite Hstep].
      apply framed_call. intros A proj (_ & Hp & _). apply Hp.
Qed.

Lemma build_framed config w :
  building (self (st w)) = true →
  framed foreign_frame counted (build nested config w) w.
Proof using nested_guarded foreign_guard.
  intros Hb. unfold build. apply framed_and_then.
  - apply framed_call. intros A proj (Hp & _). apply Hp.
  - intros [] w' Hstep. apply fire_post_build_framed.
    rewrite <- Hb.
    apply (framed_guard foreign_frame counted (call (host_stage config) w));
      [done | | by rewrite Hstep].
    apply framed_call. intros A proj (Hp & _). apply Hp.
Qed.

Hypothesis counted_build :
  ∀ t l c, counted (t ++ [EvBuild l c]) = counted t.

Lemma rebuild_framed config with_pdf locales w :
  building (self (st w)) = true →
  framed loop_frame counted (rebuild nested config with_pdf locales w) w.
Proof using nested_guarded foreign_guard counted_build.
  assert (loop_frame bool guard) as Hguard.
  { split; [done | apply guard_loop_writes]. }
  revert w. induction locales as [|locale rest IH]; intros w Hb; cbn [rebuild].
  { by exists w. }
  case_bool_decide; [by apply IH|].
  set (w1 := on_state (with_self (set_current_language (Some locale))) w).
  assert (∀ B (r : result World B),
            framed loop_frame counted r w1 → framed loop_frame counted r w)
    as Hw1.
  { intros B r. apply framed_from; [done|].
    intros A proj (_ & Hl & _). apply Hl. }
  destruct (load_config (config_file_path config) (st w1)) as [e|internal].
  { apply Hw1. by exists w1. }
  destruct (by_name (plugins config) !! lit "i18n") as [original|].
  2: { apply Hw1. by exists w1. }
  set (prepared := prepare_internal_config _ original internal).
  set (w2 := record_event _ (on_state _ w1)).
  assert (building (self (st w2)) = true) as Hb2 by done.
  assert (framed loop_frame counted (build nested prepared w2) w2) as Hbuilt.
  { apply (framed_weaken foreign_frame); [by intros A proj [? _]|].
    by apply build_framed. }
  apply Hw1. apply (framed_from _ _ _ w1 w2).
  { simpl. apply counted_build. }
  { intros A proj (_ & _ & Hl & _). apply Hl. }
  apply framed_and_then; [done|].
  intros [] w3 Hbuild.
  assert (building (self (st w3)) = true) as Hb3.
  { rewrite <- Hb2.
    apply (framed_guard loop_frame counted (build nested prepared w2));
      [done | done | by rewrite Hbuild]. }
  apply framed_and_then.
  - destruct with_pdf as [saved|]; [|by exists w3].
    set (w4 := on_state _ w3).
    apply (framed_from _ _ _ w3 w4); [done | |].
    { intros A proj (_ & _ & _ & Hl). apply Hl. }
    apply framed_call. intros A proj ((_ & _ & Hp) & _). apply Hp.
  - intros [] w5 Hpdf. apply IH. rewrite <- Hb3.
    destruct with_pdf as [saved|]; [|by injection Hpdf as <-].
    set (w4 := on_state _ w3) in *.
    change (building (self (st w3))) with (building (self (st w4))).
    apply (framed_guard loop_frame counted
             (call (with_pdf_on_post_build prepared) w4));
      [done | | by rewrite Hpdf].
    apply framed_call. intros A proj ((_ & _ & Hp) & _). apply Hp.
Qed.

End Nested.

Lemma built_build t l c : built (t ++ [EvBuild l c]) = built t ++ [l].
Proof. unfold built. by rewrite omap_app. Qed.

(** The builds the loop starts, in order: each locale other than the
    language built last. *)
Lemma rebuild_built nested config with_pdf locales w :
  (∀ config w, building (self (st w)) = true → nested config w = Ok tt w) →
  foreign_calls_preserve guard →
  foreign_calls_preserve (λ s, current_language (self s)) →
  building (self (st w)) = true →
  match rebuild nested config with_pdf locales w with
  | Ok _ w' =>
      built (trace w')
      = built (trace w) ++ builds_from (current_language (self (st w))) locales
  | Raise _ w' =>
      built (trace w') `prefix_of`
        built (trace w) ++ builds_from (current_language (self (st w))) locales
  | OutOfFuel => False
  end.
Proof.
  intros Hnested Hf Hcur. revert w.
  induction locales as [|locale rest IH]; intros w Hb; cbn [rebuild builds_from].
  { by rewrite app_nil_r. }
  case_bool_decide; [by apply IH|].
  set (w1 := on_state (with_self (set_current_language (Some locale))) w).
  assert (∀ l, built (trace w) `prefix_of` built (trace w) ++ l) as Hpre.
  { intros l. by eexists. }
  destruct (load_config (config_file_path config) (st w1)) as [e|internal];
    [apply Hpre|].
  destruct (by_name (plugins config) !! lit "i18n") as [original|];
    [|apply Hpre].
  set (prepared := prepare_internal_config _ original internal).
  set (w2 := record_event _ (on_state _ w1)).
  assert (built (trace w2) = built (trace w) ++ [locale]) as Hw2
    by apply built_build.
  assert (∀ l, built (trace w) ++ [locale] `prefix_of`
                 built (trace w) ++ locale :: l) as Hpre2.
  { intros l. exists l. by rewrite <- app_assoc. }
  destruct (build_framed nested Hnested Hf built prepared w2 Hb)
    as (w3 & Hfin3 & Ht3 & Hp3).
  destruct (build nested prepared w2) as [[] w3'|e w3'|]; simpl in Hfin3;
    [injection Hfin3 as -> | injection Hfin3 as -> | done]; cbn [and_then].
  2: { rewrite Ht3, Hw2. apply Hpre2. }
  assert (building (self (st w3)) = true
          ∧ current_language (self (st w3)) = Some locale) as [Hb3 Hc3].
  { split.
    - exact (eq_trans (Hp3 _ guard Hf) Hb).
    - by rewrite (Hp3 _ (λ s, current_language (self s)) Hcur). }
  assert (∃ w5, final match with_pdf with
                      | Some saved =>
                          call (with_pdf_on_post_build prepared)
                            (on_state (set_with_pdf_output_path
                                         (as_posix (locale ++ lit "/" ++ saved))) w3)
                      | None => Ok tt w3
                      end = Some w5
                ∧ trace w5 = trace w3
                ∧ building (self (st w5)) = true
                ∧ current_language (self (st w5)) = Some locale)
    as (w5 & Hfin5 & Ht5 & Hb5 & Hc5).
  { destruct with_pdf as [saved|]; [|by exists w3].
    destruct (call_frame (with_pdf_on_post_build prepared)
                (on_state (set_with_pdf_output_path
                             (as_posix (locale ++ lit "/" ++ saved))) w3))
      as (w5 & Hfin5 & Ht5 & Hp5).
    exists w5. split; [done|]. split; [done|]. split.
    - exact (eq_trans (Hp5 _ guard (proj2 (proj2 Hf) _)) Hb3).
    - rewrite (Hp5 _ (λ s, current_language (self s))); [done|]. apply Hcur. }
  destruct (match with_pdf with Some _ => _ | None => _ end) as [[] w5'|e w5'|];
    simpl in Hfin5; [injection Hfin5 as -> | injection Hfin5 as -> | done];
    cbn [and_then].
  - specialize (IH w5 Hb5). rewrite Hc5, Ht5, Ht3, Hw2, <- app_assoc in IH.
    exact IH.
  - rewrite Ht5, Ht3, Hw2. apply Hpre2.
Qed.

Lemma builds_from_absent current locales :
  NoDup locales → (∀ l, l ∈ locales → Some l ≠ current) →
  builds_from current locales = locales.
Proof.
  revert current. induction locales as [|l rest IH]; intros current Hnd Habs; [done|].
  simpl. rewrite bool_decide_eq_false_2 by (apply Habs; by left).
  f_equal. apply NoDup_cons in Hnd as [Hl Hnd]. apply IH; [done|].
  intros l' Hin [= ->]. done.
Qed.

(** With the current language first in the list the loop builds each of
    the other languages once. *)
Lemma builds_from_first l rest :
  NoDup (l :: rest) → builds_from (Some l) (l :: rest) = rest.
Proof.
  intros [Hl Hnd]%NoDup_cons. simpl. rewrite bool_decide_eq_true_2 by done.
  apply builds_from_absent; [done|]. intros l' Hin [= ->]. done.
Qed.

(** The directory of a locale is never the site output root. *)
Lemma locale_site_dir_distinct config locale :
  locale_site_dir config locale ≠ site_dir config.
Proof.
  unfold locale_site_dir. intros Heq. apply (f_equal length) in Heq.
  rewrite !length_app in Heq. simpl in Heq. lia.
Qed.

Lemma on_post_build_unfold n config w :
  on_post_build (S n) config w
  = if building (self (st w)) then Ok tt w
    else and_then (trigger_with_pdf config (mark_building w)) (λ with_pdf w,
           rebuild_and_patch (on_post_build n) config with_pdf w).
Proof. done. Qed.

Lemma loops_build t l c : loops (t ++ [EvBuild l c]) = loops t.
Proof. unfold loops. rewrite List.filter_app. simpl. by rewrite app_nil_r. Qed.

Lemma loops_loop t : loops (t ++ [EvLoop]) = S (loops t).
Proof.
  unfold loops. rewrite List.filter_app, length_app. simpl. lia.
Qed.

(** The patching writes the output tree and the log, nothing else, and
    ends. *)
Lemma patch_pairs_frame config pairs s :
  ∃ s', (patch_pairs config pairs s = Ok tt s'
         ∨ ∃ e, patch_pairs config pairs s = Raise e s')
        ∧ clean_directory s' = clean_directory s
        ∧ duplicate_msgs s' = duplicate_msgs s
        ∧ self s' = self s.
Proof.
  revert s. induction pairs as [|sub rest IH]; intros s; simpl.
  { exists s. auto. }
  unfold patch_pair.
  destruct (patch_scan sub (site_dir config) (fs s)) as [tree path| |]; simpl.
  - destruct (IH (log_add (InfoModified path) (set_fs tree s)))
      as (s' & Hr & Hc & Hd & Hs).
    by exists s'.
  - destruct (IH (log_add (ErrorNotModified (theme_name config)) s))
      as (s' & Hr & Hc & Hd & Hs).
    by exists s'.
  - exists s. eauto 6.
Qed.

Lemma clean_directory_loop_writes : loop_writes_preserve clean_directory.
Proof. by repeat split. Qed.

Lemma trigger_with_pdf_frame config w :
  ∃ w', final (trigger_with_pdf config w) = Some w'
        ∧ trace w' = trace w
        ∧ ∀ A (proj : State → A),
            foreign_calls_preserve proj → proj (st w') = proj (st w).
Proof.
  unfold trigger_with_pdf.
  destruct (by_name (plugins config) !! lit "with-pdf"); [|by exists w].
  destruct (call_frame (with_pdf_on_post_build config) w)
    as (w' & Hfin & Ht & Hp).
  exists w'. split.
  - by destruct (call (with_pdf_on_post_build config) w).
  - split; [done|]. intros A proj (_ & _ & Hf). by apply Hp.
Qed.

(** Below the guard the rebuild loop is reached exactly once. *)
Lemma rebuild_and_patch_loops n config with_pdf w :
  foreign_calls_preserve guard →
  building (self (st w)) = true →
  ∃ w', final (rebuild_and_patch (on_post_build (S n)) config with_pdf w) = Some w'
        ∧ loops (trace w') = S (loops (trace w)).
Proof.
  intros Hf Hb. unfold rebuild_and_patch. cbv zeta.
  destruct (rebuild_framed (on_post_build (S n)) (on_post_build_guarded n) Hf
              loops loops_build config with_pdf
              (build_languages (self (st (loop_entry w)))) (loop_entry w) Hb)
    as (w1 & Hfin & Ht & _).
  assert (loops (trace w1) = S (loops (trace w))) as Hw1.
  { rewrite Ht. apply loops_loop. }
  destruct (rebuild _ _ _ _ _) as [[] w1'|e w1'|]; simpl in Hfin;
    [injection Hfin as -> | injection Hfin as -> | done]; simpl.
  2: by exists w1.
  destruct (patch_pairs_frame config (replace_pairs config) (st w1))
    as (s' & [Hr|[e Hr]] & _); rewrite Hr; simpl.
  - case_bool_decide; eexists; by split.
  - eexists; by split.
Qed.

(** C1: a call of [on_post_build] that finds [building] set returns at
    once and changes nothing; so one top-level call reaches the rebuild
    loop at most once, whatever the builds it starts call back. *)
Theorem reentry_guard n config w :
  foreign_calls_preserve guard →
  (building (self (st w)) = true → on_post_build (S n) config w = Ok tt w)
  ∧ ∃ w', final (on_post_build (S (S n)) config w) = Some w'
          ∧ loops (trace w') ≤ S (loops (trace w)).
Proof.
  intros Hf. split; [apply on_post_build_guarded|].
  rewrite on_post_build_unfold.
  destruct (building (self (st w))) eqn:Hb.
  { exists w. split; [done | lia]. }
  destruct (trigger_with_pdf_frame config (mark_building w))
    as (w1 & Hfin & Ht & Hp).
  destruct (trigger_with_pdf config (mark_building w)) as [with_pdf w1'|e w1'|];
    simpl in Hfin; [injection Hfin as -> | injection Hfin as -> | done]; simpl.
  - destruct (rebuild_and_patch_loops n config with_pdf w1 Hf) as (w' & Hw' & Hl).
    { exact (Hp _ guard Hf). }
    exists w'. split; [done|]. rewrite Hl, Ht. simpl. lia.
  - exists w1. split; [done|]. rewrite Ht. simpl. lia.
Qed.

(** C2, as the code has it: [mkdocs.utils.clean_directory] has again the
    value it was replaced from when [on_post_build] returns normally (and
    is not replaced at all when the guard returns at once); an exception
    of a per-locale build or of the JavaScript patching leaves
    [on_post_build] unhandled, with the no-op still in place. *)
Theorem clean_directory_restored_on_return n config w :
  foreign_calls_preserve guard →
  foreign_calls_preserve clean_directory →
  (building (self (st w)) = true → on_post_build (S (S n)) config w = Ok tt w)
  ∧ ∀ with_pdf w1,
      building (self (st w)) = false →
      trigger_with_pdf config (mark_building w) = Ok with_pdf w1 →
      let loop :=
        rebuild (on_post_build (S n)) config with_pdf
          (build_languages (self (st w1))) (loop_entry w1) in
      (∀ w', on_post_build (S (S n)) config w = Ok tt w' →
             clean_directory (st w') = clean_directory (st w1))
      ∧ (∀ e w2, loop = Raise e w2 →
                 on_post_build (S (S n)) config w = Raise e w2
                 ∧ clean_directory (st w2) = NoOpCleaner)
      ∧ (∀ w2 e s3,
            loop = Ok tt w2 →
            patch_pairs config (replace_pairs config) (st w2) = Raise e s3 →
            on_post_build (S (S n)) config w
            = Raise e {| st := s3; trace := trace w2 |}
            ∧ clean_directory s3 = NoOpCleaner).
Proof.
  intros Hf Hc. split; [apply on_post_build_guarded|].
  intros with_pdf w1 Hb Htrig loop.
  assert (building (self (st w1)) = true) as Hb1.
  { destruct (trigger_with_pdf_frame config (mark_building w))
      as (w0 & Hfin & _ & Hp).
    rewrite Htrig in Hfin. injection Hfin as <-. exact (Hp _ guard Hf). }
  destruct (rebuild_framed (on_post_build (S n)) (on_post_build_guarded n) Hf
              loops loops_build config with_pdf
              (build_languages (self (st w1))) (loop_entry w1) Hb1)
    as (w2 & Hfin & _ & Hframe).
  specialize (Hframe _ clean_directory (conj Hc clean_directory_loop_writes)).
  fold loop in Hfin.
  rewrite on_post_build_unfold, Hb, Htrig. simpl.
  unfold rebuild_and_patch. cbv zeta.
  change (rebuild _ _ _ _ _) with loop.
  destruct loop as [[] w2'|e w2'|]; simpl in Hfin;
    [injection Hfin as -> | injection Hfin as -> | done]; simpl.
  - destruct (patch_pairs_frame config (replace_pairs config) (st w2))
      as (s' & [Hr|[e Hr]] & Hclean & _); rewrite Hr; simpl.
    + split; [|split].
      * intros w'. case_bool_decide; [|done]. by intros [= <-].
      * by intros e w3 [=].
      * intros w3 e s3 [= <-]. by rewrite Hr.
    + split; [|split].
      * by intros w' [=].
      * by intros e0 w3 [=].
      * intros w3 e3 s3 [= <-]. rewrite Hr. intros [= <- <-].
        split; [done|]. by rewrite Hclean.
  - split; [|split].
    + by intros w' [=].
    + by intros e2 w3 [= <- <-].
    + by intros w3 e3 s3 [=].
Qed.

End PostBuild.

(** ** Runs on sample sites *)

Lemma quiet_runtime_preserves {A} (proj : State → A) :
  @foreign_calls_preserve Samples.quiet_runtime A proj.
Proof. repeat split; intros; intros s s' [= <-]; done. Qed.

Lemma failing_runtime_preserves {A} (proj : State → A) :
  @foreign_calls_preserve Samples.failing_runtime A proj.
Proof. repeat split; intros; intros s s'; simpl; by intros [= <-]. Qed.

Lemma reentry_guard_witness :
  ∃ w', final (@on_post_build Samples.quiet_runtime 2
                 (Samples.site_config (lit "mkdocs"))
                 (Samples.world [Samples.en; Samples.fr] [])) = Some w'
        ∧ loops (trace w') ≤ 1.
Proof.
  apply (@reentry_guard Samples.quiet_runtime 0
           (Samples.site_config (lit "mkdocs"))
           (Samples.world [Samples.en; Samples.fr] [])).
  apply quiet_runtime_preserves.
Defined.

(** C2 as stated fails: when the host's build raises, [on_post_build]
    ends with the exception and [mkdocs.utils.clean_directory] is still the
    no-op. *)
Lemma clean_directory_left_replaced_on_exception :
  let config := Samples.site_config (lit "mkdocs") in
  let w := Samples.world [Samples.en; Samples.fr] [] in
  ∃ w', @on_post_build Samples.failing_runtime 2 config w
        = Raise (HostError 1) w'
        ∧ clean_directory (st w) = HostCleaner
        ∧ clean_directory (st w') = NoOpCleaner.
Proof. cbv zeta. eexists. split; [by vm_compute|]. by vm_compute. Qed.

Lemma clean_directory_restored_on_return_witness :
  ∃ w', @on_post_build Samples.quiet_runtime 2
          (Samples.site_config (lit "mkdocs"))
          (Samples.world [Samples.en; Samples.fr] []) = Ok tt w'
        ∧ clean_directory (st w') = HostCleaner.
Proof.
  destruct (@clean_directory_restored_on_return Samples.quiet_runtime 0
              (Samples.site_config (lit "mkdocs"))
              (Samples.world [Samples.en; Samples.fr] [])
              (quiet_runtime_preserves _) (quiet_runtime_preserves _))
    as [_ Hrun].
  destruct (Hrun None (mark_building (Samples.world [Samples.en; Samples.fr] []))
              eq_refl eq_refl) as (Hok & _).
  eexists. split; [by vm_compute|]. apply Hok. by vm_compute.
Defined.

(** C5 fails on the code when the language already built is not the first
    of the build languages: with French listed before English and English
    the current language, the loop builds French and then English again. *)
Theorem current_language_rebuilt_when_listed_later :
  let config := Samples.site_config (lit "mkdocs") in
  let w := Samples.world [Samples.fr; Samples.en] [] in
  current_language (self (st w)) = Some (lit "en")
  ∧ build_languages (self (st w)) = [lit "fr"; lit "en"]
  ∧ ∃ w', @on_post_build Samples.quiet_runtime 2 config w = Ok tt w'
          ∧ built (trace w') = [lit "fr"; lit "en"].
Proof.
  cbv zeta. split; [done|]. split; [done|].
  eexists. split; [by vm_compute|]. by vm_compute.
Qed.

Lemma missing_pattern_is_logged_and_skipped_witness :
  let config := Samples.site_config (lit "material") in
  let s := st (Samples.world [Samples.en; Samples.fr]
                 [Samples.js "site/assets/bundle.js" "fetch(index)"]) in
  @patch_pair Samples.quiet_runtime config
    (dq ++ lit "search/search_index.json" ++ dq,
     lit "`${i18n_link}search/search_index.json`") s
  = Ok tt (not_modified_logged config 1 s).
Proof.
  refine (proj1 (@missing_pattern_is_logged_and_skipped Samples.quiet_runtime
                   _ _ [] _ _)).
  intros f ->%list_elem_of_singleton _.
  exists (lit "fetch(index)"). split; [by vm_compute|].
  intros Hocc%contains_occurs. by vm_compute in Hocc.
Defined.

(** Two copies of one file: the pair rewrites the first and leaves the
    second as it was. *)
Example patch_pair_leaves_the_copy :
  let config := Samples.site_config (lit "mkdocs") in
  let sub := (lit "({init: true});", lit "({init: true, i18n_link: i18n_link});") in
  let copy := Samples.js "site/fr/search/main.js" "w.postMessage({init: true});" in
  let s := st (Samples.world [Samples.en; Samples.fr]
                 [Samples.js "site/search/main.js" "w.postMessage({init: true});";
                  copy]) in
  ∃ s', @patch_pair Samples.quiet_runtime config sub s = Ok tt s'
        ∧ fs s' = [Samples.js "site/search/main.js"
                     "w.postMessage({init: true, i18n_link: i18n_link});"; copy].
Proof. cbv zeta. eexists. split; [by vm_compute|]. by vm_compute. Qed.

(** * Further properties *)

Import Env.

(** ** Replacement and length *)

Section ReplaceLength.
Context {A : Type} `{EqDecision A}.
Implicit Types old new s : list A.

Lemma replace_all_cases old new s :
  old ≠ [] →
  s = [] ∧ replace_all old new s = []
  ∨ (∃ v, s = old ++ v ∧ replace_all old new s = new ++ replace_all old new v)
  ∨ (∃ c s', s = c :: s' ∧ replace_all old new s = c :: replace_all old new s').
Proof.
  intros Hne. destruct s as [|c s']; [left; by rewrite replace_all_nil|].
  right. destruct (starts_with old (c :: s')) eqn:Hs.
  - left. apply starts_with_prefix in Hs as [v Hv]. exists v.
    by rewrite Hv, replace_all_match.
  - right. exists c, s'. by rewrite replace_all_step.
Qed.

(** A replacement no longer than the pattern never lengthens the text. *)
Lemma replace_all_shrinks old new n s :
  old ≠ [] → length new ≤ length old → length s ≤ n →
  length (replace_all old new s) ≤ length s.
Proof.
  intros Hne Hlen. revert s. induction n as [|n IH]; intros s Hn;
    destruct (replace_all_cases old new s Hne)
      as [[-> ->]|[(v & -> & ->)|(c & s' & -> & ->)]]; simpl in *; try lia.
  - rewrite length_app in Hn. destruct old; [done|]. simpl in Hn. lia.
  - rewrite !length_app in *. destruct old as [|p old]; [done|]. simpl in *.
    specialize (IH v). lia.
  - specialize (IH s'). lia.
Qed.

(** A replacement no shorter than the pattern never shortens the text. *)
Lemma replace_all_grows old new n s :
  old ≠ [] → length old ≤ length new → length s ≤ n →
  length s ≤ length (replace_all old new s).
Proof.
  intros Hne Hlen. revert s. induction n as [|n IH]; intros s Hn;
    destruct (replace_all_cases old new s Hne)
      as [[-> ->]|[(v & -> & ->)|(c & s' & -> & ->)]]; simpl in *; try lia.
  - rewrite !length_app in *. destruct old as [|p old]; [done|]. simpl in *.
    specialize (IH v). lia.
  - specialize (IH s'). lia.
Qed.

(** A text that contains the pattern is changed by the replacement. *)
Lemma replace_all_changes old new s :
  old ≠ [] → old ≠ new → occurs old s → replace_all old new s ≠ s.
Proof.
  intros Hne Hdiff Hocc Heq.
  destruct (occurs_first _ _ Hocc) as (g & v & -> & Hf).
  rewrite replace_all_first in Heq by done.
  apply app_inv_head in Heq.
  pose proof (f_equal length Heq) as Hl. rewrite !length_app in Hl.
  destruct (decide (length new ≤ length old)) as [Hle|Hgt].
  - pose proof (replace_all_shrinks old new (length v) v Hne Hle (le_n _)).
    assert (length new = length old) as Hsame by lia.
    apply app_inj_1 in Heq as [Hnew _]; [|done]. by apply Hdiff.
  - pose proof (replace_all_grows old new (length v) v Hne ltac:(lia) (le_n _)).
    lia.
Qed.

Lemma occurs_dec old s : occurs old s ∨ ¬ occurs old s.
Proof.
  destruct (contains old s) eqn:Hc.
  - left. by apply contains_occurs.
  - right. intros Ho%contains_occurs. congruence.
Qed.

(** The prefix up to the end of the first occurrence decides where the
    first occurrence is. *)
Lemma first_at_tail old g v v' : first_at old g v → first_at old g v'.
Proof.
  intros Hf g' v'' Heq.
  destruct (decide (length g ≤ length g')) as [|Hlt]; [done|]. exfalso.
  assert (g' ++ old `prefix_of` g ++ old) as [k Hk].
  { destruct (prefix_weak_total (g' ++ old) (g ++ old) (g ++ old ++ v'))
      as [Hp|Hp]; [| |done|].
    - exists v''. by rewrite Heq, <- app_assoc.
    - exists v'. by rewrite <- app_assoc.
    - apply prefix_length in Hp. rewrite !length_app in Hp. lia. }
  specialize (Hf g' (k ++ v)).
  rewrite (app_assoc g), Hk, <- !app_assoc in Hf. specialize (Hf eq_refl). lia.
Qed.

End ReplaceLength.

(** ** More on the patching of the generated JavaScript *)

Lemma replace_pairs_distinct (config : MkDocsConfig) (sub : str * str) :
  sub ∈ replace_pairs config → sub.1 ≠ [] ∧ sub.1 ≠ sub.2.
Proof.
  unfold replace_pairs. case_bool_decide.
  - intros ->%list_elem_of_singleton. split; intros Heq; vm_compute in Heq; discriminate.
  - unfold default_pairs. intros Hin.
    repeat (apply elem_of_cons in Hin as [->|Hin];
            [split; intros Heq; vm_compute in Heq; discriminate|]).
    by apply elem_of_nil in Hin.
Qed.

(** X1: for every substitution pair of either theme, the test of line 314
    ([src != out]) holds exactly when the text of the file contains the
    pattern of the pair. *)
Theorem text_changes_iff_pattern_occurs
    (config : MkDocsConfig) (sub : str * str) (src : str) :
  sub ∈ replace_pairs config →
  patch_text sub src ≠ src ↔ occurs sub.1 src.
Proof.
  intros [Hne Hdiff]%replace_pairs_distinct. unfold patch_text. split.
  - intros Hchanged. destruct (occurs_dec sub.1 src) as [|Hno]; [done|].
    destruct Hchanged. by apply replace_absent.
  - by apply replace_all_changes.
Qed.

Lemma text_changes_iff_pattern_occurs_witness :
  patch_text (dq ++ lit "search/search_index.json" ++ dq,
              lit "`${i18n_link}search/search_index.json`")
             (lit "fetch(" ++ dq ++ lit "search/search_index.json" ++ dq ++ lit ")")
  ≠ lit "fetch(" ++ dq ++ lit "search/search_index.json" ++ dq ++ lit ")".
Proof.
  apply (text_changes_iff_pattern_occurs (Samples.site_config (lit "material"))).
  - vm_compute. apply list_elem_of_here.
  - by exists (lit "fetch("), (lit ")").
Defined.

Section MorePatch.
Context `{RT : Runtime}.
Implicit Types (config : MkDocsConfig) (sub : str * str) (s : State).

Lemma patch_scan_first config sub pre f post src :
  first_changed config sub pre f src →
  patch_scan sub (site_dir config) (pre ++ f :: post)
  = Modified (pre ++ {| file_path := file_path f;
                        file_bytes := encode_utf8 (patch_text sub src) |} :: post)
             (file_path f).
Proof.
  intros (Hjs & Hd & Hne & Hpre). induction pre as [|f' pre IH]; simpl.
  - rewrite Hjs, Hd. by rewrite bool_decide_eq_false_2 by done.
  - rewrite IH by (intros f0 Hin; apply Hpre; by right).
    destruct (is_js_under (site_dir config) (file_path f')) eqn:Hjs'; [|done].
    destruct (Hpre f') as (src' & -> & Hsame); [by left | done |].
    by rewrite bool_decide_eq_true_2.
Qed.

(** X2: when some JavaScript file contains the pattern of a pair and the
    JavaScript files before it in directory order can be read and do not
    contain it, the pair rewrites that file, reports it with the record of
    line 316 and reports no error; the files after it are not even read. *)
Theorem present_pattern_is_patched config sub s pre f post src :
  sub ∈ replace_pairs config →
  fs s = pre ++ f :: post →
  is_js_under (site_dir config) (file_path f) = true →
  decode_utf8_sig (file_bytes f) = Some src →
  occurs sub.1 src →
  (∀ f', f' ∈ pre → is_js_under (site_dir config) (file_path f') = true →
         ∃ src', decode_utf8_sig (file_bytes f') = Some src' ∧ ¬ occurs sub.1 src') →
  patch_pair config sub s
  = Ok tt (log_add (InfoModified (file_path f))
             (set_fs (pre ++ {| file_path := file_path f;
                                file_bytes := encode_utf8 (patch_text sub src) |}
                          :: post) s)).
Proof.
  intros Hsub Hfs Hjs Hd Hocc Hpre. unfold patch_pair.
  rewrite Hfs, (patch_scan_first config sub pre f post src); [done|].
  repeat split; try done.
  - by apply (text_changes_iff_pattern_occurs config).
  - intros f' Hin Hjs'. destruct (Hpre f' Hin Hjs') as (src' & Hd' & Hno).
    exists src'. split; [done|]. unfold patch_text. by apply replace_absent.
Qed.



Lemma same_layout_refl site tree : same_layout site tree tree.
Proof. unfold same_layout. by apply Forall2_same_length_lookup_2; [done|intros ??? Hx [= <-]%(eq_trans (eq_sym Hx))]. Qed.

Lemma same_layout_trans site t1 t2 t3 :
  same_layout site t1 t2 → same_layout site t2 t3 → same_layout site t1 t3.
Proof.
  unfold same_layout. intros H12. revert t3.
  induction H12 as [|f1 f2 t1 t2 [Hp12 Hb12] _ IH]; intros t3 H23.
  - by apply Forall2_nil_inv_l in H23 as ->.
  - apply Forall2_cons_inv_l in H23 as (f3 & t3' & [Hp23 Hb23] & H23 & ->).
    constructor; [|by apply IH]. split; [congruence|].
    intros Hjs. rewrite Hb23, Hb12; [done | done | by rewrite Hp12].
Qed.

Lemma patch_scan_layout config sub tree tree' path :
  patch_scan sub (site_dir config) tree = Modified tree' path →
  same_layout (site_dir config) tree tree'.
Proof.
  intros (pre & f & post & src & -> & -> & _ & Hjs & _)%patch_scan_modified.
  unfold same_layout. apply Forall2_app; [apply same_layout_refl|].
  constructor; [|apply same_layout_refl]. simpl. split; [done|]. congruence.
Qed.

(** X4: whatever the pairs and however the patching ends, the output
    tree holds the same files in the same order afterwards, and every file
    that [glob("**/*.js")] does not yield has the bytes it had. *)
Theorem patching_keeps_the_layout config pairs s :
  ∃ s', final_state (patch_pairs config pairs s) = Some s'
        ∧ same_layout (site_dir config) (fs s) (fs s').
Proof.
  revert s. induction pairs as [|sub rest IH]; intros s; simpl.
  { exists s. split; [done | apply same_layout_refl]. }
  unfold patch_pair.
  destruct (patch_scan sub (site_dir config) (fs s)) as [tree path| |path] eqn:Hscan;
    simpl.
  - destruct (IH (log_add (InfoModified path) (set_fs tree s))) as (s' & Hfin & Hl).
    exists s'. split; [done|].
    apply (same_layout_trans _ _ tree); [by apply (patch_scan_layout config sub _ _ path) | done].
  - destruct (IH (log_add (ErrorNotModified (theme_name config)) s)) as (s' & Hfin & Hl).
    by exists s'.
  - exists s. split; [done | apply same_layout_refl].
Qed.

(** X5: every pair that is processed adds exactly one record to the log,
    the report of the modified file or the error of line 319, after the
    records that were there; a patching that ends normally has added one
    record per pair, one that raises fewer. *)
Theorem patching_logs_one_record_per_pair config pairs s :
  ∃ s' records,
    final_state (patch_pairs config pairs s) = Some s'
    ∧ log s' = log s ++ records
    ∧ Forall (patch_record config) records
    ∧ (patch_pairs config pairs s = Ok tt s' → length records = length pairs)
    ∧ (∀ e, patch_pairs config pairs s = Raise e s' →
            length records < length pairs).
Proof.
  revert s. induction pairs as [|sub rest IH]; intros s; simpl.
  { exists s, []. rewrite app_nil_r. repeat split; try done. }
  unfold patch_pair.
  destruct (patch_scan sub (site_dir config) (fs s)) as [tree path| |path] eqn:Hscan;
    simpl.
  - destruct (IH (log_add (InfoModified path) (set_fs tree s)))
      as (s' & records & Hfin & Hlog & Hall & Hok & Hraise).
    exists s', (InfoModified path :: records). simpl in Hlog.
    rewrite Hlog, <- app_assoc. repeat split; try done.
    + constructor; [left; by eexists | done].
    + intros Hr. simpl. by rewrite Hok.
    + intros e Hr. simpl. specialize (Hraise e Hr). lia.
  - destruct (IH (log_add (ErrorNotModified (theme_name config)) s))
      as (s' & records & Hfin & Hlog & Hall & Hok & Hraise).
    exists s', (ErrorNotModified (theme_name config) :: records). simpl in Hlog.
    rewrite Hlog, <- app_assoc. repeat split; try done.
    + constructor; [by right | done].
    + intros Hr. simpl. by rewrite Hok.
    + intros e Hr. simpl. specialize (Hraise e Hr). lia.
  - exists s, []. rewrite app_nil_r. repeat split; try done. simpl. lia.
Qed.

End MorePatch.

(** ** More on the post-build hook *)

Section MorePostBuild.
Context `{RT : Runtime}.
Implicit Types (config : MkDocsConfig) (w : World) (s : State).

(** How [rebuild_and_patch] ends, from how its loop ends. *)
Lemma rebuild_and_patch_after_loop nested config with_pdf w :
  match rebuild nested config with_pdf (build_languages (self (st w))) (loop_entry w) with
  | OutOfFuel => rebuild_and_patch nested config with_pdf w = OutOfFuel
  | Raise e w1 => rebuild_and_patch nested config with_pdf w = Raise e w1
  | Ok _ w1 =>
      ∃ w', final (rebuild_and_patch nested config with_pdf w) = Some w'
            ∧ self (st w') = self (st w1)
            ∧ trace w' = trace w1
            ∧ (∀ w'', rebuild_and_patch nested config with_pdf w = Ok tt w'' →
                      clean_directory (st w'') = clean_directory (st w)
                      ∧ duplicate_msgs (st w'')
                        = duplicate_msgs (st w1) ∖ {[time_msg]})
            ∧ (time_msg ∈ duplicate_msgs (st w1) →
               (∃ s3, patch_pairs config (replace_pairs config) (st w1) = Ok tt s3) →
               ∃ w'', rebuild_and_patch nested config with_pdf w = Ok tt w'')
  end.
Proof.
  unfold rebuild_and_patch. cbv zeta.
  change (build_languages (self (st (loop_entry w))))
    with (build_languages (self (st w))).
  destruct (rebuild nested config with_pdf _ (loop_entry w)) as [[] w1|e w1|];
    [|done|done].
  cbn [and_then].
  destruct (patch_pairs_frame config (replace_pairs config) (st w1))
    as (s' & [Hr|[e Hr]] & Hclean & Hdup & Hself); rewrite Hr; cbn [lift and_then].
  - simpl. rewrite Hdup. case_bool_decide as Hin.
    + eexists. split; [done|]. simpl. split; [done|]. split; [done|]. split.
      * by intros w'' [= <-].
      * intros _ _. by eexists.
    + eexists. split; [done|]. simpl. split; [done|]. split; [done|]. split.
      * by intros w'' [=].
      * intros Hin'. done.
  - eexists. split; [done|]. simpl. split; [done|]. split; [done|]. split.
    + by intros w'' [=].
    + intros _ [s3 [=]].
Qed.

(** X6: however a top-level call ends, the instance is left with
    [building] set, which nothing in the hook clears: every later call of
    [on_post_build] on that instance returns at once and starts no build. *)
Theorem guard_stays_set n config w :
  foreign_calls_preserve guard →
  ∃ w', final (on_post_build (S (S n)) config w) = Some w'
        ∧ building (self (st w')) = true
        ∧ ∀ m config', on_post_build (S m) config' w' = Ok tt w'.
Proof.
  intros Hf.
  cut (∃ w', final (on_post_build (S (S n)) config w) = Some w'
             ∧ building (self (st w')) = true).
  { intros (w' & Hfin & Hb). exists w'. split; [done|]. split; [done|].
    intros m config'. by apply on_post_build_guarded. }
  rewrite on_post_build_unfold.
  destruct (building (self (st w))) eqn:Hb; [by exists w|].
  destruct (trigger_with_pdf_frame config (mark_building w))
    as (w1 & Hfin & _ & Hp).
  specialize (Hp _ guard Hf). change (guard (st w1) = true) in Hp.
  destruct (trigger_with_pdf config (mark_building w)) as [with_pdf w1'|e w1'|];
    simpl in Hfin; [injection Hfin as -> | injection Hfin as -> | done];
    cbn [and_then]; [|by exists w1].
  pose proof (rebuild_and_patch_after_loop (on_post_build (S n)) config with_pdf w1)
    as Hcases.
  destruct (rebuild_framed (on_post_build (S n)) (on_post_build_guarded n) Hf
              loops loops_build config with_pdf
              (build_languages (self (st w1))) (loop_entry w1) Hp)
    as (w2 & Hfin2 & _ & Hframe).
  specialize (Hframe _ guard (conj Hf guard_loop_writes)).
  destruct (rebuild _ _ _ _ (loop_entry w1)) as [[] w2'|e w2'|]; simpl in Hfin2;
    [injection Hfin2 as -> | injection Hfin2 as -> | done].
  - destruct Hcases as (w' & Hfin' & Hself & _). exists w'. split; [done|].
    rewrite Hself. exact (eq_trans Hframe Hp).
  - rewrite Hcases. exists w2. split; [done|]. exact (eq_trans Hframe Hp).
Qed.

Lemma built_loop t : built (t ++ [EvLoop]) = built t.
Proof. unfold built. rewrite omap_app. simpl. by rewrite app_nil_r. Qed.

(** After each iteration the current language is the locale of the
    iteration, built or skipped. *)
Lemma rebuild_current nested config with_pdf locales w w' :
  (∀ config w, building (self (st w)) = true → nested config w = Ok tt w) →
  foreign_calls_preserve guard →
  foreign_calls_preserve (λ s, current_language (self s)) →
  building (self (st w)) = true →
  rebuild nested config with_pdf locales w = Ok tt w' →
  current_language (self (st w'))
  = match last locales with
    | Some l => Some l
    | None => current_language (self (st w))
    end.
Proof.
  intros Hnested Hf Hcur. revert w.
  induction locales as [|locale rest IH]; intros w Hb; cbn [rebuild].
  { by intros [= <-]. }
  rewrite last_cons. case_bool_decide as Hskip.
  { intros Hr. rewrite (IH w Hb Hr). rewrite <- Hskip. by destruct (last rest). }
  set (w1 := on_state (with_self (set_current_language (Some locale))) w).
  destruct (load_config (config_file_path config) (st w1)) as [e|internal]; [done|].
  destruct (by_name (plugins config) !! lit "i18n") as [original|]; [|done].
  set (prepared := prepare_internal_config _ original internal).
  set (w2 := record_event _ (on_state _ w1)).
  destruct (build_framed nested Hnested Hf built prepared w2 Hb)
    as (w3 & Hfin3 & _ & Hp3).
  destruct (build nested prepared w2) as [[] w3'|e w3'|]; simpl in Hfin3;
    [injection Hfin3 as -> | done | done]; cbn [and_then].
  assert (building (self (st w3)) = true
          ∧ current_language (self (st w3)) = Some locale) as [Hb3 Hc3].
  { split.
    - exact (eq_trans (Hp3 _ guard Hf) Hb).
    - by rewrite (Hp3 _ (λ s, current_language (self s)) Hcur). }
  destruct with_pdf as [saved|]; cbn [and_then].
  - destruct (call_frame (with_pdf_on_post_build prepared)
                (on_state (set_with_pdf_output_path
                             (as_posix (locale ++ lit "/" ++ saved))) w3))
      as (w5 & Hfin5 & _ & Hp5).
    destruct (call _ _) as [[] w5'|e w5'|]; simpl in Hfin5;
      [injection Hfin5 as -> | done | done]; cbn [and_then].
    intros Hr. rewrite (IH w5); [| |done].
    + rewrite (Hp5 _ (λ s, current_language (self s))); [|apply Hcur].
      simpl. rewrite Hc3. by destruct (last rest).
    + exact (eq_trans (Hp5 _ guard (proj2 (proj2 Hf) _)) Hb3).
  - intros Hr. rewrite (IH w3 Hb3 Hr), Hc3. by destruct (last rest).
Qed.

(** X7: when the current language comes first in a list of build
    languages without repetition, a top-level call builds each of the other
    languages once, in the order of the list; when a build raises, the
    languages built so far are the first ones of that list. *)
Theorem builds_each_other_language_once n config w l rest :
  foreign_calls_preserve guard →
  foreign_calls_preserve (λ s, current_language (self s)) →
  foreign_calls_preserve (λ s, build_languages (self s)) →
  building (self (st w)) = false →
  build_languages (self (st w)) = l :: rest →
  NoDup (l :: rest) →
  current_language (self (st w)) = Some l →
  match on_post_build (S (S n)) config w with
  | Ok _ w' => built (trace w') = built (trace w) ++ rest
  | Raise _ w' => built (trace w') `prefix_of` built (trace w) ++ rest
  | OutOfFuel => False
  end.
Proof.
  intros Hf Hcur Hbl Hb Hlangs Hnd Hl.
  rewrite on_post_build_unfold, Hb.
  destruct (trigger_with_pdf_frame config (mark_building w))
    as (w1 & Hfin & Ht & Hfr).
  pose proof (Hfr _ guard Hf) as Hg1.
  pose proof (Hfr _ _ Hcur) as Hc1. pose proof (Hfr _ _ Hbl) as Hl1.
  change (building (self (st w1)) = true) in Hg1.
  change (trace w1 = trace w) in Ht. simpl in Hc1, Hl1.
  destruct (trigger_with_pdf config (mark_building w)) as [with_pdf w1'|e w1'|];
    simpl in Hfin; [injection Hfin as -> | injection Hfin as -> | done];
    cbn [and_then].
  2: { rewrite Ht. by eexists. }
  pose proof (rebuild_and_patch_after_loop (on_post_build (S n)) config with_pdf w1)
    as Hcases.
  pose proof (rebuild_built (on_post_build (S n)) config with_pdf
                (build_languages (self (st w1))) (loop_entry w1)
                (on_post_build_guarded n) Hf Hcur Hg1) as Hbuilt.
  rewrite Hl1, Hlangs in Hcases, Hbuilt.
  change (built (trace (loop_entry w1))) with (built (trace w1 ++ [EvLoop])) in Hbuilt.
  change (current_language (self (st (loop_entry w1))))
    with (current_language (self (st w1))) in Hbuilt.
  rewrite built_loop, Ht, Hc1, Hl, builds_from_first in Hbuilt by done.
  destruct (rebuild _ _ _ (l :: rest) (loop_entry w1)) as [[] w2|e w2|]; [| |done].
  - destruct Hcases as (w' & Hfin' & _ & Htr & _).
    destruct (rebuild_and_patch _ _ _ w1) as [[] w''|e w''|]; simpl in Hfin';
      [injection Hfin' as -> | injection Hfin' as -> | done]; rewrite Htr, Hbuilt; done.
  - by rewrite Hcases.
Qed.

(** X8: when a top-level call returns, the current language of the
    instance is the last of the build languages, whether that language was
    built or skipped, and not the language the call started with; with no
    build language it is unchanged. *)
Theorem current_language_after_post_build n config w :
  foreign_calls_preserve guard →
  foreign_calls_preserve (λ s, current_language (self s)) →
  foreign_calls_preserve (λ s, build_languages (self s)) →
  building (self (st w)) = false →
  match on_post_build (S (S n)) config w with
  | Ok _ w' =>
      current_language (self (st w'))
      = match last (build_languages (self (st w))) with
        | Some l => Some l
        | None => current_language (self (st w))
        end
  | Raise _ _ => True
  | OutOfFuel => False
  end.
Proof.
  intros Hf Hcur Hbl Hb.
  destruct (guard_stays_set n config w Hf) as (w0 & Hfin0 & _).
  rewrite on_post_build_unfold, Hb in Hfin0 |- *.
  destruct (trigger_with_pdf_frame config (mark_building w))
    as (w1 & Hfin & Ht & Hfr).
  pose proof (Hfr _ guard Hf) as Hg1.
  pose proof (Hfr _ _ Hcur) as Hc1. pose proof (Hfr _ _ Hbl) as Hl1.
  change (building (self (st w1)) = true) in Hg1.
  change (trace w1 = trace w) in Ht. simpl in Hc1, Hl1.
  destruct (trigger_with_pdf config (mark_building w)) as [with_pdf w1'|e w1'|];
    simpl in Hfin; [injection Hfin as -> | injection Hfin as -> | done];
    cbn [and_then] in *; [|done].
  pose proof (rebuild_and_patch_after_loop (on_post_build (S n)) config with_pdf w1)
    as Hcases.
  pose proof (rebuild_current (on_post_build (S n)) config with_pdf
                (build_languages (self (st w1))) (loop_entry w1)) as Hlast.
  destruct (rebuild _ _ _ (build_languages (self (st w1))) (loop_entry w1))
    as [[] w2|e w2|].
  - destruct Hcases as (w' & Hfin' & Hself & _).
    destruct (rebuild_and_patch _ _ _ w1) as [[] w''|e w''|]; simpl in Hfin';
      [injection Hfin' as -> | done | done].
    rewrite Hself, (Hlast w2 (on_post_build_guarded n) Hf Hcur Hg1 eq_refl).
    simpl. by rewrite Hl1, Hc1.
  - by rewrite Hcases.
  - rewrite Hcases in Hfin0. done.
Qed.

Lemma duplicate_msgs_loop_writes : loop_writes_preserve duplicate_msgs.
Proof. by repeat split. Qed.

(** X9: a top-level call that returns normally leaves the set of silenced
    messages as it found it, less the time report: the report is heard again
    afterwards even when it was silenced before the call; and once the loop
    and the patching have ended normally the removal of line 332 cannot
    fail. *)
Theorem time_report_is_unblocked n config w :
  foreign_calls_preserve guard →
  foreign_calls_preserve duplicate_msgs →
  building (self (st w)) = false →
  match on_post_build (S (S n)) config w with
  | Ok _ w' => duplicate_msgs (st w') = duplicate_msgs (st w) ∖ {[time_msg]}
  | Raise _ _ => True
  | OutOfFuel => False
  end
  ∧ ∀ with_pdf w1 w2 s3,
      trigger_with_pdf config (mark_building w) = Ok with_pdf w1 →
      rebuild (on_post_build (S n)) config with_pdf
        (build_languages (self (st w1))) (loop_entry w1) = Ok tt w2 →
      patch_pairs config (replace_pairs config) (st w2) = Ok tt s3 →
      ∃ w', on_post_build (S (S n)) config w = Ok tt w'.
Proof.
  intros Hf Hdup Hb.
  destruct (guard_stays_set n config w Hf) as (w0 & Hfin0 & _).
  rewrite on_post_build_unfold, Hb in Hfin0 |- *.
  destruct (trigger_with_pdf_frame config (mark_building w))
    as (w1 & Hfin & Ht & Hfr).
  pose proof (Hfr _ guard Hf) as Hg1. pose proof (Hfr _ _ Hdup) as Hd1.
  change (building (self (st w1)) = true) in Hg1.
  change (duplicate_msgs (st w1) = {[time_msg]} ∪ duplicate_msgs (st w)) in Hd1.
  destruct (trigger_with_pdf config (mark_building w)) as [with_pdf w1'|e w1'|];
    simpl in Hfin; [injection Hfin as -> | injection Hfin as -> | done];
    cbn [and_then] in *; [|by split].
  pose proof (rebuild_and_patch_after_loop (on_post_build (S n)) config with_pdf w1)
    as Hcases.
  destruct (rebuild_framed (on_post_build (S n)) (on_post_build_guarded n) Hf
              loops loops_build config with_pdf
              (build_languages (self (st w1))) (loop_entry w1) Hg1)
    as (w2 & Hfin2 & _ & Hframe).
  specialize (Hframe _ duplicate_msgs (conj Hdup duplicate_msgs_loop_writes)).
  change (duplicate_msgs (st w2) = duplicate_msgs (st w1)) in Hframe.
  destruct (rebuild _ _ _ _ (loop_entry w1)) as [[] w2'|e w2'|] eqn:Hloop;
    simpl in Hfin2; [injection Hfin2 as -> | injection Hfin2 as -> | done].
  - destruct Hcases as (w' & Hfin' & _ & _ & Hok & Hlast). split.
    + destruct (rebuild_and_patch _ _ _ w1) as [[] w''|e w''|]; [|done|done].
      destruct (Hok w'' eq_refl) as [_ ->]. rewrite Hframe, Hd1.
      apply set_eq. intros m. rewrite !elem_of_difference, elem_of_union.
      tauto.
    + intros wp w1' w2' s3 [= <- <-] Hloop' Hpatch.
      rewrite Hloop in Hloop'. injection Hloop' as <-.
      apply Hlast; [|by eexists]. rewrite Hframe, Hd1.
      apply elem_of_union_l. by apply elem_of_singleton.
  - rewrite Hcases. split; [done|].
    intros wp w1' w2' s3 [= <- <-] Hloop'. by rewrite Hloop in Hloop'.
Qed.



End MorePostBuild.

Lemma guard_stays_set_witness :
  ∃ w', final (@on_post_build Samples.quiet_runtime 2
                 (Samples.site_config (lit "mkdocs"))
                 (Samples.world [Samples.en; Samples.fr] [])) = Some w'
        ∧ building (self (st w')) = true.
Proof.
  destruct (@guard_stays_set Samples.quiet_runtime 0
              (Samples.site_config (lit "mkdocs"))
              (Samples.world [Samples.en; Samples.fr] [])
              (quiet_runtime_preserves _)) as (w' & Hfin & Hb & _).
  by exists w'.
Defined.

(** ** More on the plugin registry *)

Section MoreRegistry.
Variable cls : str.

Lemma pop_first_bound_cases (event_group : list hook) :
  bound_hooks cls event_group = [] ∧ pop_first_bound cls event_group = event_group
  ∨ ∃ pre h post,
      event_group = pre ++ h :: post
      ∧ bound_hooks cls pre = []
      ∧ bound_to_class cls h = true
      ∧ pop_first_bound cls event_group = pre ++ post.
Proof.
  unfold bound_hooks.
  induction event_group as [|h rest IH]; [by left|]. simpl.
  destruct (bound_to_class cls h) eqn:Hb.
  - right. by exists [], h, rest.
  - destruct IH as [[Hnone Hsame]|(pre & h' & post & -> & Hpre & Hh & Hpop)].
    + left. by rewrite Hsame.
    + right. exists (h :: pre), h', post. simpl. rewrite Hb, Hpop. done.
Qed.

(** X11: in every event group the loop of lines 258-264 removes the first
    handler bound to an instance of the class, if there is one, and nothing
    else: the handlers before and after it stay, in their order, and no
    event group appears or disappears. *)
Theorem strip_events_removes_first_bound_only (c : MkDocsConfig) (name : str) :
  match events (plugins c) !! name with
  | None => events (plugins (strip_events cls c)) !! name = None
  | Some event_group =>
      ∃ stripped,
        events (plugins (strip_events cls c)) !! name = Some stripped
        ∧ (bound_hooks cls event_group = [] ∧ stripped = event_group
           ∨ ∃ pre h post,
               event_group = pre ++ h :: post
               ∧ bound_hooks cls pre = []
               ∧ bound_to_class cls h = true
               ∧ stripped = pre ++ post)
  end.
Proof.
  unfold strip_events. simpl. rewrite lookup_fmap.
  destruct (events (plugins c) !! name) as [g|]; [|done]. simpl.
  exists (pop_first_bound cls g). split; [done|]. apply pop_first_bound_cases.
Qed.

Lemma other_hooks_pop (event_group : list hook) :
  other_hooks cls (pop_first_bound cls event_group) = other_hooks cls event_group.
Proof.
  unfold other_hooks. induction event_group as [|h rest IH]; [done|]. simpl.
  destruct (bound_to_class cls h) eqn:Hb; simpl; [done|]. by rewrite Hb, IH.
Qed.

Lemma other_hooks_insort (h : hook) (event_group : list hook) :
  bound_to_class cls h = true →
  other_hooks cls (insort h event_group) = other_hooks cls event_group.
Proof.
  intros Hb. unfold other_hooks.
  induction event_group as [|h' rest IH]; simpl; [by rewrite Hb|].
  case_bool_decide; simpl; [by rewrite Hb|]. by rewrite IH.
Qed.

(** X12: preparing the internal configuration keeps the handlers of every
    other plugin, in their order, in each event group that was loaded; the
    handlers of the plugin class in a group are one fewer than were loaded,
    plus the one of the original instance when the class handles the event,
    so that a second loaded instance would keep its handler. *)
Theorem prepared_registry_keeps_other_plugins
    (original : plugin_obj) (internal_config : MkDocsConfig)
    (name : str) (event_group : list hook) :
  obj_class original = cls →
  events (plugins internal_config) !! name = Some event_group →
  ∃ prepared,
    events (plugins (prepare_internal_config cls original internal_config)) !! name
    = Some prepared
    ∧ other_hooks cls prepared = other_hooks cls event_group
    ∧ length (bound_hooks cls prepared)
      = pred (length (bound_hooks cls event_group))
        + match obj_handles original !! name with Some _ => 1 | None => 0 end.
Proof.
  intros Hcls Hg. rewrite prepared_events, Hg. simpl.
  destruct (obj_handles original !! name) as [z|].
  - eexists. split; [done|].
    assert (bound_to_class cls {| hook_self := Some original; hook_priority := z |}
            = true) as Hb.
    { unfold bound_to_class. simpl. by apply bool_decide_eq_true. }
    split.
    + by rewrite other_hooks_insort, other_hooks_pop.
    + rewrite bound_hooks_insort. unfold bound_hooks at 1. simpl. rewrite Hb.
      simpl. fold (bound_hooks cls (pop_first_bound cls event_group)).
      rewrite bound_hooks_pop. lia.
  - eexists. split; [done|]. split; [apply other_hooks_pop|].
    rewrite bound_hooks_pop. lia.
Qed.

End MoreRegistry.

(** ** More on the template hooks *)

(** X13: [on_template_context] also sets [i18n_current_language_config],
    and it leaves every entry of the context under another key as it
    was. *)
Theorem on_template_context_frame
    (self : I18n) (context : gmap str pyval) (template_name : str)
    (config : MkDocsConfig) :
  let returned := on_template_context self context template_name config in
  returned !! lit "i18n_current_language_config"
  = Some (current_language_config self)
  ∧ ∀ key,
      key ∉ [lit "i18n_build_languages"; lit "i18n_current_language_config";
             lit "i18n_current_language"; lit "i18n_alternates"] →
      returned !! key = context !! key.
Proof.
  unfold on_template_context. cbv zeta. split.
  - rewrite !lookup_insert_ne by (by apply lit_neq). apply lookup_insert_eq.
  - intros key Hkey. rewrite !elem_of_cons, elem_of_nil in Hkey.
    rewrite !lookup_insert_ne by (intros Heq; apply Hkey; rewrite <- Heq; auto 6).
    done.
Qed.

Lemma i18n_script_starts_with_script (i18_link : str) :
  i18n_script i18_link
  = lit "<script" ++ lit ">let i18n_link = " ++ dq ++ i18_link ++ dq ++ lit ";</script>".
Proof. done. Qed.

(** X14: the hooks are not idempotent: given the output of
    [on_post_template] again, [on_post_template] puts a second script
    element in front of the first, at the place of the first [<script] of
    the original output. *)
Theorem post_template_twice_inserts_twice
    (self : I18n) (output template_name : str) (config : MkDocsConfig)
    (l : Language) (g v : str) :
  template_name ≠ lit "sitemap.xml" →
  find_current_language self = inr l →
  output = g ++ lit "<script" ++ v →
  first_at (lit "<script") g v →
  let script := i18n_script (replace_all (lit "./") [] (link l)) in
  ∃ once,
    on_post_template self output template_name config = inr (Some once)
    ∧ on_post_template self once template_name config
      = inr (Some (g ++ script ++ script ++ lit "<script" ++ v)).
Proof.
  intros Hname Hl -> Hfirst script. unfold on_post_template.
  rewrite bool_decide_eq_false_2 by done.
  exists (g ++ (script ++ lit "<script") ++ v). split.
  { rewrite (inject_i18n_link_found _ _ _ Hl). fold script.
    by rewrite replace_first_first. }
  rewrite (inject_i18n_link_found _ _ _ Hl). fold script. do 2 f_equal.
  set (v2 := lit ">let i18n_link = " ++ dq ++ replace_all (lit "./") [] (link l)
             ++ dq ++ lit ";</script>" ++ lit "<script" ++ v).
  assert (script ++ lit "<script" ++ v = lit "<script" ++ v2) as Hsplit.
  { unfold script, v2. rewrite i18n_script_starts_with_script.
    by rewrite <- !app_assoc. }
  rewrite <- (app_assoc script), Hsplit.
  rewrite replace_first_first; [|done|by apply (first_at_tail _ _ v)].
  by rewrite <- (app_assoc script), <- Hsplit.
Qed.

(** ** The environment hook *)

Lemma wrapper_is_unbound (cls : str) : bound_to_class cls site_dir_wrapper = false.
Proof. done. Qed.

Lemma wrap_first_bound_cases (cls : str) (event_group : list hook) :
  bound_hooks cls event_group = [] ∧ wrap_first_bound cls event_group = event_group
  ∨ ∃ pre h post,
      event_group = pre ++ h :: post
      ∧ bound_hooks cls pre = []
      ∧ bound_to_class cls h = true
      ∧ wrap_first_bound cls event_group = pre ++ site_dir_wrapper :: post.
Proof.
  unfold bound_hooks.
  induction event_group as [|h rest IH]; [by left|]. simpl.
  unfold bound_to_class at 1 3. destruct (hook_self h) as [o|] eqn:Hself.
  - case_bool_decide as Hcls.
    + right. exists [], h, rest. repeat split; try done.
      unfold bound_to_class. rewrite Hself. by apply bool_decide_eq_true.
    + destruct IH as [[Hnone Hsame]|(pre & h' & post & -> & Hpre & Hh & Hw)].
      * left. by rewrite Hsame.
      * right. exists (h :: pre), h', post. simpl.
        unfold bound_to_class at 1. rewrite Hself, bool_decide_eq_false_2 by done.
        by rewrite Hw.
  - destruct IH as [[Hnone Hsame]|(pre & h' & post & -> & Hpre & Hh & Hw)].
    + left. by rewrite Hsame.
    + right. exists (h :: pre), h', post. simpl.
      unfold bound_to_class at 1. rewrite Hself. by rewrite Hw.
Qed.

Lemma wrap_first_bound_unbound (cls : str) (event_group : list hook) :
  bound_hooks cls event_group = [] →
  wrap_first_bound cls event_group = event_group.
Proof.
  intros Hnone.
  destruct (wrap_first_bound_cases cls event_group)
    as [[_ ->]|(pre & h & post & -> & _ & Hh & _)]; [done|].
  unfold bound_hooks in Hnone. rewrite List.filter_app in Hnone. simpl in Hnone.
  rewrite Hh in Hnone. by apply app_eq_nil in Hnone as [_ ?].
Qed.

Section MoreEnv.
Variable add_loopcontrols : pyval → pyval.

(** X15: [on_env] extends the environment and changes nothing else when no
    plugin is registered as [search] or [material/search] or when the
    current language is the default one; otherwise it replaces, in the
    [post_build] group, the first handler bound to an instance of the search
    plugin's class by the wrapper and leaves every other handler at its
    place, every other group and the plugins as they were; it raises
    [KeyError] only when there is no [post_build] group. *)
Theorem on_env_wraps_the_first_search_handler
    (self : I18n) (env : pyval) (items : list (str * plugin_obj))
    (config : MkDocsConfig) :
  match on_env add_loopcontrols self env items config with
  | inl e =>
      e = KeyError (lit "post_build")
      ∧ events (plugins config) !! lit "post_build" = None
      ∧ is_Some (find_search_plugin items)
      ∧ current_language self ≠ Some (default_language self)
  | inr (env', config') =>
      env' = add_loopcontrols env
      ∧ by_name (plugins config') = by_name (plugins config)
      ∧ (∀ name, name ≠ lit "post_build" →
                 events (plugins config') !! name = events (plugins config) !! name)
      ∧ (config' = config
         ∧ (find_search_plugin items = None
            ∨ current_language self = Some (default_language self))
         ∨ ∃ search_plugin event_group wrapped,
             find_search_plugin items = Some search_plugin
             ∧ current_language self ≠ Some (default_language self)
             ∧ events (plugins config) !! lit "post_build" = Some event_group
             ∧ events (plugins config') !! lit "post_build" = Some wrapped
             ∧ (bound_hooks (obj_class search_plugin) event_group = []
                ∧ wrapped = event_group
                ∨ ∃ pre h post,
                    event_group = pre ++ h :: post
                    ∧ bound_hooks (obj_class search_plugin) pre = []
                    ∧ bound_to_class (obj_class search_plugin) h = true
                    ∧ wrapped = pre ++ site_dir_wrapper :: post))
  end.
Proof.
  unfold on_env. cbv zeta.
  destruct (find_search_plugin items) as [search_plugin|] eqn:Hfind.
  2: { repeat split; try done. left. split; [done | by left]. }
  case_bool_decide as Hlang.
  { repeat split; try done. left. split; [done | by right]. }
  destruct (events (plugins config) !! lit "post_build") as [g|] eqn:Hg.
  2: { repeat split; try done; by eexists. }
  split; [done|]. split; [done|]. split.
  { intros name Hname. simpl. by rewrite lookup_insert_ne. }
  right. exists search_plugin, g, (wrap_first_bound (obj_class search_plugin) g).
  split; [done|]. split; [done|]. split; [done|]. split.
  { simpl. apply lookup_insert_eq. }
  apply wrap_first_bound_cases.
Qed.

(** X16: the wrapper is not wrapped again: when the [post_build] group
    holds at most one handler of the search plugin's class, a second
    [on_env] on the configuration left by the first changes nothing in
    it. *)
Theorem on_env_twice_wraps_once
    (self : I18n) (env env1 : pyval) (items : list (str * plugin_obj))
    (config config1 : MkDocsConfig) :
  on_env add_loopcontrols self env items config = inr (env1, config1) →
  (∀ search_plugin event_group,
      find_search_plugin items = Some search_plugin →
      events (plugins config) !! lit "post_build" = Some event_group →
      length (bound_hooks (obj_class search_plugin) event_group) ≤ 1) →
  on_env add_loopcontrols self env1 items config1
  = inr (add_loopcontrols env1, config1).
Proof.
  unfold on_env. cbv zeta. intros Hfirst Hone.
  destruct (find_search_plugin items) as [search_plugin|] eqn:Hfind.
  2: { by injection Hfirst as <- <-. }
  case_bool_decide as Hlang.
  { by injection Hfirst as <- <-. }
  destruct (events (plugins config) !! lit "post_build") as [g|] eqn:Hg; [|done].
  injection Hfirst as <- <-. simpl. rewrite lookup_insert_eq.
  specialize (Hone search_plugin g eq_refl eq_refl).
  assert (bound_hooks (obj_class search_plugin)
            (wrap_first_bound (obj_class search_plugin) g) = []) as Hnone.
  { destruct (wrap_first_bound_cases (obj_class search_plugin) g)
      as [[Hn ->]|(pre & h & post & -> & Hpre & Hh & ->)]; [done|].
    unfold bound_hooks in *. rewrite List.filter_app in Hone |- *.
    simpl in *. rewrite Hh in Hone. rewrite Hpre in *. simpl in *.
    apply length_zero_iff_nil. lia. }
  rewrite (wrap_first_bound_unbound _ _ Hnone).
  do 2 f_equal. unfold set_post_build. simpl. do 2 f_equal.
  apply insert_insert_eq.
Qed.

End MoreEnv.

(** ** The page-context hook *)

Section MorePageContext.
Context {V : Type}.
Variable config_value : I18nConfig → V.
Variable str_value : str → V.
Variable reconfigure_page_context :
  I18n → gmap str V → pyval → MkDocsConfig → pyval → exn + gmap str V.

(** X17: [on_page_context] puts the plugin's configuration under
    [i18n_config] and the locale of the page's file, not the current
    language of the build, under [i18n_page_locale], and leaves the other
    entries as they were; that context is what it returns when
    [reconfigure_material] is off and what it hands to
    [reconfigure_page_context] when it is on. *)
Theorem on_page_context_entries
    (self : I18n) (context : gmap str V) (page : pyval) (page_locale : str)
    (config : MkDocsConfig) (nav : pyval) :
  ∃ exported,
    exported !! lit "i18n_config" = Some (config_value (self_config self))
    ∧ exported !! lit "i18n_page_locale" = Some (str_value page_locale)
    ∧ (∀ key, key ≠ lit "i18n_config" → key ≠ lit "i18n_page_locale" →
              exported !! key = context !! key)
    ∧ on_page_context config_value str_value reconfigure_page_context
        self context page page_locale config nav
      = if reconfigure_material (self_config self)
        then reconfigure_page_context self exported page config nav
        else inr exported.
Proof.
  eexists. split; [|split; [|split; [|reflexivity]]].
  - rewrite lookup_insert_ne by (by apply lit_neq). apply lookup_insert_eq.
  - apply lookup_insert_eq.
  - intros key H1 H2. by rewrite !lookup_insert_ne.
Qed.

End MorePageContext.

(** ** Further runs on sample sites *)

Lemma present_pattern_is_patched_witness :
  let config := Samples.site_config (lit "mkdocs") in
  let sub := (lit "({init: true});", lit "({init: true, i18n_link: i18n_link});") in
  let first := Samples.js "site/search/main.js" "w.postMessage({init: true});" in
  let copy := Samples.js "site/fr/search/main.js" "w.postMessage({init: true});" in
  let s := st (Samples.world [Samples.en; Samples.fr] [first; copy]) in
  @patch_pair Samples.quiet_runtime config sub s
  = Ok tt (log_add (InfoModified (file_path first))
             (set_fs ([] ++ {| file_path := file_path first;
                               file_bytes :=
                                 @encode_utf8 Samples.quiet_runtime
                                   (patch_text sub (lit "w.postMessage({init: true});")) |}
                         :: [copy]) s)).
Proof.
  cbv zeta.
  apply (@present_pattern_is_patched Samples.quiet_runtime).
  - apply (list_elem_of_lookup_2 _ 1). by vm_compute.
  - reflexivity.
  - by vm_compute.
  - by vm_compute.
  - exists (lit "w.postMessage"), []. by vm_compute.
  - by intros f' ?%elem_of_nil.
Defined.


Lemma sample_languages_distinct : NoDup [lit "en"; lit "fr"].
Proof.
  apply NoDup_cons. split; [|apply NoDup_singleton].
  intros Hin%list_elem_of_singleton. vm_compute in Hin. discriminate.
Qed.

Lemma builds_each_other_language_once_witness :
  match @on_post_build Samples.quiet_runtime 2 (Samples.site_config (lit "mkdocs"))
          (Samples.world [Samples.en; Samples.fr] []) with
  | Ok _ w' => built (trace w') = [] ++ [lit "fr"]
  | Raise _ w' => built (trace w') `prefix_of` [] ++ [lit "fr"]
  | OutOfFuel => False
  end.
Proof.
  apply (@builds_each_other_language_once Samples.quiet_runtime 0
           (Samples.site_config (lit "mkdocs"))
           (Samples.world [Samples.en; Samples.fr] []) (lit "en") [lit "fr"]).
  - apply quiet_runtime_preserves.
  - apply quiet_runtime_preserves.
  - apply quiet_runtime_preserves.
  - reflexivity.
  - reflexivity.
  - apply sample_languages_distinct.
  - reflexivity.
Defined.

Lemma current_language_after_post_build_witness :
  match @on_post_build Samples.quiet_runtime 2 (Samples.site_config (lit "mkdocs"))
          (Samples.world [Samples.en; Samples.fr] []) with
  | Ok _ w' => current_language (self (st w')) = Some (lit "fr")
  | Raise _ _ => True
  | OutOfFuel => False
  end.
Proof.
  apply (@current_language_after_post_build Samples.quiet_runtime 0
           (Samples.site_config (lit "mkdocs"))
           (Samples.world [Samples.en; Samples.fr] [])).
  - apply quiet_runtime_preserves.
  - apply quiet_runtime_preserves.
  - apply quiet_runtime_preserves.
  - reflexivity.
Defined.

Lemma time_report_is_unblocked_witness :
  let w := Samples.world [Samples.en; Samples.fr] [] in
  match @on_post_build Samples.quiet_runtime 2 (Samples.site_config (lit "mkdocs")) w with
  | Ok _ w' => duplicate_msgs (st w') = duplicate_msgs (st w) ∖ {[time_msg]}
  | Raise _ _ => True
  | OutOfFuel => False
  end.
Proof.
  cbv zeta.
  destruct (@time_report_is_unblocked Samples.quiet_runtime 0
              (Samples.site_config (lit "mkdocs"))
              (Samples.world [Samples.en; Samples.fr] [])
              (quiet_runtime_preserves _) (quiet_runtime_preserves _) eq_refl)
    as [Hset _].
  exact Hset.
Defined.


Lemma prepared_registry_keeps_other_plugins_witness :
  let fresh := {| obj_id := 2; obj_class := I18n_class; obj_handles := I18n_handles |} in
  let loaded := plugins_setitem (lit "i18n") fresh MoreSamples.search_site in
  ∃ prepared,
    events (plugins (prepare_internal_config I18n_class Samples.i18n_obj loaded))
      !! lit "post_build" = Some prepared
    ∧ other_hooks I18n_class prepared
      = other_hooks I18n_class
          [ {| hook_self := Some MoreSamples.search_obj; hook_priority := 0 |};
            {| hook_self := Some Samples.i18n_obj; hook_priority := (-100)%Z |};
            {| hook_self := Some fresh; hook_priority := (-100)%Z |} ]
    ∧ length (bound_hooks I18n_class prepared)
      = pred (length (bound_hooks I18n_class
                        [ {| hook_self := Some MoreSamples.search_obj; hook_priority := 0 |};
                          {| hook_self := Some Samples.i18n_obj; hook_priority := (-100)%Z |};
                          {| hook_self := Some fresh; hook_priority := (-100)%Z |} ]))
        + match obj_handles Samples.i18n_obj !! lit "post_build" with
          | Some _ => 1
          | None => 0
          end.
Proof.
  cbv zeta.
  apply (prepared_registry_keeps_other_plugins I18n_class Samples.i18n_obj).
  - reflexivity.
  - by vm_compute.
Defined.

Lemma post_template_twice_inserts_twice_witness :
  let plugin := Samples.plugin [Samples.en; Samples.fr] in
  let config := Samples.site_config (lit "mkdocs") in
  let script := i18n_script (replace_all (lit "./") [] (link Samples.en)) in
  ∃ once,
    on_post_template plugin (lit "<p>" ++ lit "<script" ++ lit ">a</script>")
      (lit "main.html") config = inr (Some once)
    ∧ on_post_template plugin once (lit "main.html") config
      = inr (Some (lit "<p>" ++ script ++ script ++ lit "<script" ++ lit ">a</script>")).
Proof.
  cbv zeta.
  apply (post_template_twice_inserts_twice
           (Samples.plugin [Samples.en; Samples.fr]) _ (lit "main.html")
           (Samples.site_config (lit "mkdocs")) Samples.en
           (lit "<p>") (lit ">a</script>")).
  - by apply lit_neq.
  - reflexivity.
  - reflexivity.
  - intros [|a [|b [|c g']]] v' Heq; simpl; try lia; vm_compute in Heq; discriminate.
Defined.

Lemma on_env_twice_wraps_once_witness :
  let wrapped :=
    set_post_build
      (wrap_first_bound (obj_class MoreSamples.search_obj)
         (default [] (events (plugins MoreSamples.search_site) !! lit "post_build")))
      MoreSamples.search_site in
  on_env (λ env, env) MoreSamples.french_plugin (PyRef 1) MoreSamples.search_items wrapped
  = inr (PyRef 1, wrapped).
Proof.
  cbv zeta.
  apply (on_env_twice_wraps_once (λ env, env) MoreSamples.french_plugin (PyRef 1) (PyRef 1)
           MoreSamples.search_items MoreSamples.search_site).
  - vm_compute; reflexivity.
  - intros search_plugin event_group Hfind Hgroup.
    vm_compute in Hfind. injection Hfind as <-.
    vm_compute in Hgroup. injection Hgroup as <-. vm_compute. lia.
Defined.
